(** * tap-apple-search-ads: the sync entry point and its authentication pipeline

    A shallow embedding of [src/tap_apple_search_ads/__init__.py].  Python
    code with side effects (module-level globals, the file system, the cache
    shelf, the network, the Singer output) is written as state passing over a
    [World]; a raised exception is the [Raise] result, and the world reached
    at the raise is kept, as a Python traceback leaves whatever was already
    written. *)

From Stdlib Require Import ZArith String List Bool Lia.
From stdpp Require Import base gmap strings list.

Open Scope string_scope.
Open Scope list_scope.
Open Scope Z_scope.

(** ** Values *)

(** The dynamically typed values the tap moves around: configuration
    values, record fields, bookmarks.  [VTime] is a datetime, counted in
    seconds. *)
Inductive Val :=
| VNone
| VStr (s : string)
| VInt (z : Z)
| VTime (t : Z).

#[global] Instance Val_eq_dec : EqDecision Val.
Proof. solve_decision. Defined.

(** An API record is a JSON object. *)
Abbreviation Record_ := (gmap string Val).

(** The Singer state, seen through [singer.get_bookmark] and
    [singer.write_bookmark]: stream name, then bookmark key. *)
Abbreviation State := (gmap string (gmap string Val)).

(** ** Exceptions *)

Inductive Exn :=
| TapAppleSearchAdsException (msg : string)
| OSError (msg : string)
| AuthExchangeError (status : option Z) (body : string)
| SigningError (msg : string)
| ValueError (msg : string)
| KeyError (key : string)
| TypeError (msg : string)
| CollaboratorError (msg : string).

Inductive Result (A : Type) :=
| Ok (a : A)
| Raise (e : Exn).
Arguments Ok {A} a.
Arguments Raise {A} e.

Definition is_ok {A} (r : Result A) : bool :=
  match r with Ok _ => true | Raise _ => false end.

(** ** The authentication data model *)

(** [tap_config.Authentication], by the fields [__init__.py] reads. *)
Record Authentication := {
  client_id : string;
  team_id : string;
  key_id : string;
  org_id : string;
  audience : string;
  algorithm : string;
  url : string;
  expiration_time : Z;
  local_caching : bool;
  tmp_dir : string;
  auth_cache_file : string;
  start_time : Val;
  end_time : Val;
  selector : Val }.

(** [client_secret.Headers(key_id, algorithm)] *)
Record Headers := { h_key_id : string; h_algorithm : string }.

(** [client_secret.Payload(client_id, team_id, audience)] *)
Record Payload := { p_client_id : string; p_team_id : string; p_audience : string }.

(** The three stage objects, by their constructor arguments. *)
Record ClientSecret := {
  cs_timestamp : Z;
  cs_expiration_time : Z;
  cs_headers : Headers;
  cs_payload : Payload }.

Record AccessToken := { at_client_id : string; at_url : string }.

Record RequestHeaders := { rh_org_id : string }.

(** The values the stages produce (spec, section 3). *)
Record SignedSecret := {
  ss_token : string;
  ss_issued_at : Z;
  ss_expires_at : Z }.

Record AccessTokenValue := {
  atv_token : string;
  atv_expires_at : Z }.

Record RequestHeadersValue := {
  rhv_org_id : string;
  rhv_authorization : string }.

#[global] Instance Headers_eq_dec : EqDecision Headers.
Proof. solve_decision. Defined.
#[global] Instance Payload_eq_dec : EqDecision Payload.
Proof. solve_decision. Defined.
#[global] Instance SignedSecret_eq_dec : EqDecision SignedSecret.
Proof. solve_decision. Defined.
#[global] Instance AccessTokenValue_eq_dec : EqDecision AccessTokenValue.
Proof. solve_decision. Defined.
#[global] Instance RequestHeadersValue_eq_dec : EqDecision RequestHeadersValue.
Proof. solve_decision. Defined.

(** ** The cache *)

Inductive StageKind := KSecret | KToken | KHeaders.

#[global] Instance StageKind_eq_dec : EqDecision StageKind.
Proof. solve_decision. Defined.

(** What a shelf entry can hold once unpickled; [CVGarbage] is an entry
    that does not unpickle to any stage value. *)
Inductive CachedVal :=
| CVSecret (s : SignedSecret)
| CVToken (t : AccessTokenValue)
| CVHeaders (h : RequestHeadersValue)
| CVGarbage.

Record CacheEntry := { ce_value : CachedVal; ce_expires_at : Z }.

(** An open [shelve.Shelf]: the object identity and the file behind it. *)
Record Shelf := { shelf_id : nat; shelf_path : string }.

#[global] Instance Shelf_eq_dec : EqDecision Shelf.
Proof. solve_decision. Defined.

(** ** The world *)

(** A reply of the transport to one token-exchange request; [None] in the
    queue stands for a transport-level failure (timeout, no connection). *)
Record Response := { status_code : Z; body : string }.

Inductive Event :=
| EvClock (t : Z)
| EvExists (path : string)
| EvShelveOpen (path : string)
| EvReadKeyFile (path : string)
| EvInvoke (k : StageKind)
| EvFetch (api : string) (headers : RequestHeadersValue) (args : list Val)
| EvWriteSchema (stream : string) (key_properties : list string)
| EvWriteRecord (stream : string) (record : Record_)
| EvWriteState (state : State).

(** What lies outside the program text: the clock, the file system, the
    shelf files, the module-level [cache], the transport. *)
Record World := {
  w_clock : nat -> Z;        (* what the system clock shows at its n-th reading *)
  w_reads : nat;             (* readings taken so far *)
  w_paths : gset string;     (* paths that exist *)
  w_dbm : string -> gset string;                  (* the files the dbm module keeps a shelf in *)
  w_files : gmap string string;                   (* text files, by path *)
  w_store : gmap string (gmap string CacheEntry); (* shelf files, by path *)
  w_opened : nat;            (* shelves opened so far *)
  w_cache : option Shelf;    (* the module-level [cache] *)
  w_net : list (option Response) }.               (* replies the transport will give *)

Definition with_reads (w : World) (n : nat) : World :=
  {| w_clock := w_clock w; w_reads := n; w_paths := w_paths w;
     w_dbm := w_dbm w; w_files := w_files w;
     w_store := w_store w; w_opened := w_opened w;
     w_cache := w_cache w; w_net := w_net w |}.

Definition with_store (w : World) (s : gmap string (gmap string CacheEntry)) : World :=
  {| w_clock := w_clock w; w_reads := w_reads w; w_paths := w_paths w;
     w_dbm := w_dbm w; w_files := w_files w;
     w_store := s; w_opened := w_opened w;
     w_cache := w_cache w; w_net := w_net w |}.

Definition with_cache (w : World) (c : option Shelf) : World :=
  {| w_clock := w_clock w; w_reads := w_reads w; w_paths := w_paths w;
     w_dbm := w_dbm w; w_files := w_files w;
     w_store := w_store w; w_opened := w_opened w;
     w_cache := c; w_net := w_net w |}.

Definition with_net (w : World) (n : list (option Response)) : World :=
  {| w_clock := w_clock w; w_reads := w_reads w; w_paths := w_paths w;
     w_dbm := w_dbm w; w_files := w_files w;
     w_store := w_store w; w_opened := w_opened w;
     w_cache := w_cache w; w_net := n |}.

(** The world after [shelve.open(path)].  The shelf is kept in whatever
    files the dbm module of the machine uses for it ([path] itself,
    [path.db], or [path.dat] with [path.dir], ...): these exist from then
    on, and the mapping behind [path] is the one they held, the empty one
    when they were not there. *)
Definition with_open (w : World) (path : string) : World :=
  {| w_clock := w_clock w; w_reads := w_reads w;
     w_paths := w_dbm w path ∪ w_paths w;
     w_dbm := w_dbm w;
     w_files := w_files w;
     w_store := match w_store w !! path with
                | Some _ => w_store w
                | None => <[ path := ∅ ]> (w_store w)
                end;
     w_opened := S (w_opened w);
     w_cache := w_cache w; w_net := w_net w |}.

(** ** The monad: state passing, exceptions, and the events of the run *)

Definition M (A : Type) : Type := World -> Result A * World * list Event.

Definition ret {A} (a : A) : M A := fun w => (Ok a, w, []).

Definition raise {A} (e : Exn) : M A := fun w => (Raise e, w, []).

Definition bind {A B} (m : M A) (k : A -> M B) : M B :=
  fun w =>
    match m w with
    | (Ok a, w1, t1) =>
        match k a w1 with
        | (r, w2, t2) => (r, w2, t1 ++ t2)
        end
    | (Raise e, w1, t1) => (Raise e, w1, t1)
    end.

Notation "x <- m ;; k" := (bind m (fun x => k))
  (at level 100, m at next level, right associativity).
Notation "m ;;; k" := (bind m (fun _ => k))
  (at level 100, right associativity).

Definition lift {A} (r : Result A) : M A := fun w => (r, w, []).

Definition emit (e : Event) : M unit := fun w => (Ok tt, w, [e]).

Definition result_of {A} (x : Result A * World * list Event) : Result A := x.1.1.
Definition world_of {A} (x : Result A * World * list Event) : World := x.1.2.
Definition trace_of {A} (x : Result A * World * list Event) : list Event := x.2.

(** [for x in xs: body(x)] *)
Fixpoint for_each {A} (body : A -> M unit) (xs : list A) : M unit :=
  match xs with
  | [] => ret tt
  | x :: xs' => body x ;;; for_each body xs'
  end.

(** One reading of the system clock. *)
Definition read_clock : M Z :=
  fun w =>
    let t := w_clock w (w_reads w) in
    (Ok t, with_reads w (S (w_reads w)), [EvClock t]).

(** [pathlib.Path(p).exists()] *)
Definition path_exists (p : string) : M bool :=
  fun w => (Ok (bool_decide (p ∈ w_paths w)), w, [EvExists p]).

(** [shelve.open(p)]: the default flag creates the shelf when it is not
    there, in the files the dbm module names after [p].  Failures of
    [shelve.open] on an existing directory (a directory that cannot be
    written) are not modelled. *)
Definition shelve_open (p : string) : M Shelf :=
  fun w =>
    (Ok {| shelf_id := w_opened w; shelf_path := p |}, with_open w p,
     [EvShelveOpen p]).

(** The mapping behind an open shelf. *)
Definition shelf_dict (w : World) (s : Shelf) : gmap string CacheEntry :=
  default ∅ (w_store w !! shelf_path s).

(** [cache[key]] lookup and [cache[key] = entry] *)
Definition cache_get (cache : Shelf) (key : string) : M (option CacheEntry) :=
  fun w => (Ok (shelf_dict w cache !! key), w, []).

Definition store_entry (w : World) (cache : Shelf) (key : string)
    (e : CacheEntry) : World :=
  with_store w (<[ shelf_path cache := <[ key := e ]> (shelf_dict w cache) ]>
                  (w_store w)).

Definition cache_put (cache : Shelf) (key : string) (e : CacheEntry) : M unit :=
  fun w => (Ok tt, store_entry w cache key e, []).

(** Python truth value of the module-level [cache]: [None] is false, and a
    [Shelf] has no [__bool__], so it is true when its [__len__] is not 0. *)
Definition truthy (w : World) (c : option Shelf) : bool :=
  match c with
  | None => false
  | Some s => negb (Nat.eqb (size (shelf_dict w s)) 0)
  end.

(** The transport: one request takes the next reply. *)
Definition transport_post : M (option Response) :=
  fun w =>
    match w_net w with
    | [] => (Ok None, w, [])
    | r :: rest => (Ok r, with_net w rest, [])
    end.

(** ** Singer bookmarks *)

Definition get_bookmark (state : State) (stream key : string) : Val :=
  match state !! stream with
  | Some marks => default VNone (marks !! key)
  | None => VNone
  end.

Definition write_bookmark (state : State) (stream key : string) (v : Val) : State :=
  <[ stream := <[ key := v ]> (default ∅ (state !! stream)) ]> state.

(** ** Python's [max] over the [date] fields of a list of records *)

(** [a > b]: strings with strings, numbers with numbers, datetimes with
    datetimes; anything else is a [TypeError]. *)
Definition val_gt (a b : Val) : Result bool :=
  match a, b with
  | VStr x, VStr y => Ok (String.ltb y x)
  | VInt x, VInt y => Ok (y <? x)
  | VTime x, VTime y => Ok (y <? x)
  | _, _ => Raise (TypeError "'>' not supported between these instances")
  end.

Fixpoint max_date_from (cur : Val) (records : list Record_) : Result Val :=
  match records with
  | [] => Ok cur
  | r :: rest =>
      match r !! "date" with
      | None => Raise (KeyError "date")
      | Some d =>
          match val_gt d cur with
          | Ok true => max_date_from d rest
          | Ok false => max_date_from cur rest
          | Raise e => Raise e
          end
      end
  end.

(** [max(record['date'] for record in records)] *)
Definition max_date (records : list Record_) : Result Val :=
  match records with
  | [] => Raise (ValueError "max() arg is an empty sequence")
  | r :: rest =>
      match r !! "date" with
      | None => Raise (KeyError "date")
      | Some d => max_date_from d rest
      end
  end.

(** ** Stages and their cache-backed variants *)

(** A stage object is the plain one or an [auth.cache] wrapper around a
    stage object of the same interface, holding the cache. *)
Inductive Stage (A : Type) :=
| Direct (a : A)
| CacheBacked (inner : Stage A) (cache : Shelf).
Arguments Direct {A} a.
Arguments CacheBacked {A} inner cache.

Definition AuthObjects : Type :=
  Stage ClientSecret * Stage AccessToken * Stage RequestHeaders.

(** The stable key of a stage kind in the shelf. *)
Definition stage_key (k : StageKind) : string :=
  match k with
  | KSecret => "client_secret"
  | KToken => "access_token"
  | KHeaders => "request_headers"
  end.

Definition decode_secret (c : CachedVal) : option SignedSecret :=
  match c with CVSecret s => Some s | _ => None end.
Definition decode_token (c : CachedVal) : option AccessTokenValue :=
  match c with CVToken t => Some t | _ => None end.
Definition decode_headers (c : CachedVal) : option RequestHeadersValue :=
  match c with CVHeaders h => Some h | _ => None end.

(** The value of a cache entry when it is there, unpickles to a value of
    the stage, and [expires_at > now]. *)
Definition live_value {V} (decode : CachedVal -> option V) (now : Z)
    (entry : option CacheEntry) : option V :=
  match entry with
  | Some e => if now <? ce_expires_at e then decode (ce_value e) else None
  | None => None
  end.

(** HTTP success *)
Definition success (status : Z) : bool := (200 <=? status) && (status <? 300).

(** The catalog entries [do_sync] walks: the stream id, the [selected] flag
    and the [key-properties] of the empty breadcrumb. *)
Record CatalogEntry := {
  tap_stream_id : string;
  selected : bool;
  key_properties : list string }.

(** The [additional_params] dict of [do_sync], with its three keys. *)
Record Additional := {
  a_start_time : Val;
  a_end_time : Val;
  a_selector : Val }.

Definition STREAMS : list string :=
  [ "campaign";
    "campaign_flat";
    "campaign_level_reports";
    "campaign_level_reports_extended_spend_row";
    "campaign_level_reports_extended_spend_row_flat";
    "impression_share_reports" ].

Definition seconds_per_day : Z := 86400.

(** ** Collaborators that are not part of [__init__.py] *)

Class Collaborators := {
  (** [tap_config.Authentication.from_mapping] *)
  from_mapping : gmap string string -> Result Authentication;
  (** [pathlib.Path(p).as_posix()] and [(pathlib.Path(d) / f).as_posix()] *)
  as_posix : string -> string;
  joinpath : string -> string -> string;
  (** the JWT encoder behind the secret signer: headers, payload, issued-at,
      expiry, private key *)
  jwt_encode : Headers -> Payload -> Z -> Z -> string -> Result string;
  (** decoding of a token-exchange reply body into the bearer token and its
      declared lifetime in seconds *)
  parse_token_body : string -> option (string * Z);
  (** the data-fetch endpoints and record converters of [api.campaign],
      [api.campaign_level_reports] and [api.impression_share_reports] *)
  campaign_sync : RequestHeadersValue -> Result (list Record_);
  campaign_to_schema : Record_ -> Result Record_;
  campaign_level_reports_sync :
    RequestHeadersValue -> Val -> Val -> Val -> Result (list Record_);
  campaign_level_reports_sync_extended_spend_row :
    RequestHeadersValue -> Val -> Val -> Val -> Result (list Record_);
  campaign_level_reports_flatten : Record_ -> Result Record_;
  impression_share_reports_sync :
    RequestHeadersValue -> Val -> Val -> Val -> Result (list Record_);
  (** [singer.utils.strptime_to_utc] *)
  strptime_to_utc : Val -> Result Z }.

Section Tap.

Context {env : Collaborators}.

(** ** [load_private_key] *)

(** Modelled from the spec: [auth.utils.read_private_key_from_file], which
    is not part of [__init__.py]; the private key is loaded from a file
    (section 3): the text of the file, an [OSError] when there is no such
    file. *)
Definition read_private_key_from_file (path : string) : M string :=
  emit (EvReadKeyFile path) ;;;
  fun w =>
    match w_files w !! path with
    | Some text => (Ok text, w, [])
    | None => (Raise (OSError ("No such file or directory: " +:+ path)), w, [])
    end.

Definition load_private_key (config : gmap string string) : M string :=
  match config !! "private_key_value" with
  | Some private_key => ret private_key
  | None =>
      match config !! "private_key_file" with
      | Some private_key_file => read_private_key_from_file private_key_file
      | None => raise (TapAppleSearchAdsException
                         "Missing private key configuration parameters")
      end
  end.

(** ** [set_up_authentication] and [add_caching] *)

Definition set_up_authentication (timestamp : Z) (config_ : Authentication)
    : AuthObjects :=
  let headers := {| h_key_id := key_id config_; h_algorithm := algorithm config_ |} in
  let payload := {| p_client_id := client_id config_;
                    p_team_id := team_id config_;
                    p_audience := audience config_ |} in
  let client_secret_ := {| cs_timestamp := timestamp;
                           cs_expiration_time := expiration_time config_;
                           cs_headers := headers;
                           cs_payload := payload |} in
  let access_token := {| at_client_id := client_id config_; at_url := url config_ |} in
  let request_headers := {| rh_org_id := org_id config_ |} in
  (Direct client_secret_, Direct access_token, Direct request_headers).

Definition add_caching (client_secret : Stage ClientSecret)
    (access_token : Stage AccessToken) (request_headers : Stage RequestHeaders)
    (cache : Shelf) : AuthObjects :=
  (CacheBacked client_secret cache,
   CacheBacked access_token cache,
   CacheBacked request_headers cache).

(** ** [get_or_create_cache] *)

(** Lines 169 to 180: the directory check, [shelve.open], and the
    assignment to the module-level [cache]. *)
Definition create_cache (cache_dir cache_file : string) : M Shelf :=
  ex <- path_exists (as_posix cache_dir) ;;
  if negb ex then
    raise (OSError ("Cache directory [" +:+ as_posix cache_dir
                    +:+ "] does not exist"))
  else
    sh <- shelve_open (joinpath cache_dir cache_file) ;;
    fun w => (Ok sh, with_cache w (Some sh), []).

Definition get_or_create_cache (cache_dir cache_file : string) : M Shelf :=
  fun w =>
    match w_cache w with
    | Some cache =>
        if truthy w (Some cache) then (Ok cache, w, [])
        else create_cache cache_dir cache_file w
    | None => create_cache cache_dir cache_file w
    end.

(** ** The stages *)

(** Modelled from the spec: [auth.ClientSecret.value], the secret signer of
    section 4.1.  The stage object carries the evaluation instant and the
    expiration duration [set_up_authentication] gave it; the secret is issued
    at that instant and expires the duration later.  Signing itself is the
    collaborator [jwt_encode], whose failure is propagated. *)
Definition sign (cs : ClientSecret) (private_key : string) : M SignedSecret :=
  emit (EvInvoke KSecret) ;;;
  token <- lift (jwt_encode (cs_headers cs) (cs_payload cs) (cs_timestamp cs)
                   (cs_timestamp cs + cs_expiration_time cs) private_key) ;;
  ret {| ss_token := token;
         ss_issued_at := cs_timestamp cs;
         ss_expires_at := cs_timestamp cs + cs_expiration_time cs |}.

(** Modelled from the spec: what the token exchanger of section 4.2 makes of
    the transport's reply: a reply that is not 2xx, a body that does not
    parse, or a transport failure is an [AuthExchangeError], with the status
    and body when there are any; the expiry is the declared lifetime counted
    from the exchange instant [now]. *)
Definition token_of_reply (now : Z) (reply : option Response)
    : Result AccessTokenValue :=
  match reply with
  | None => Raise (AuthExchangeError None "")
  | Some r =>
      if success (status_code r) then
        match parse_token_body (body r) with
        | Some (token, expires_in) =>
            Ok {| atv_token := token; atv_expires_at := now + expires_in |}
        | None => Raise (AuthExchangeError (Some (status_code r)) (body r))
        end
      else Raise (AuthExchangeError (Some (status_code r)) (body r))
  end.

(** Modelled from the spec: [auth.AccessToken.value], the token exchanger of
    section 4.2: one network call, no retry. *)
Definition exchange (now : Z) (tok : AccessToken) (secret : SignedSecret)
    : M AccessTokenValue :=
  emit (EvInvoke KToken) ;;;
  reply <- transport_post ;;
  lift (token_of_reply now reply).

(** Modelled from the spec: [auth.RequestHeaders.value], the header builder
    of section 4.3: the tenant identifier and the bearer authorization. *)
Definition build_headers (rh : RequestHeaders) (token : AccessTokenValue)
    : M RequestHeadersValue :=
  emit (EvInvoke KHeaders) ;;;
  ret {| rhv_org_id := rh_org_id rh;
         rhv_authorization := "Bearer " +:+ atv_token token |}.

(** Modelled from the spec: the [value] of an [auth.cache] wrapper, the
    caching proxy of section 4.4.  Step 1 looks the stage's key up; step 2
    returns a live entry without invoking the wrapped stage; step 3 invokes
    it, stores the fresh value with its expiry, and returns it.  An entry
    that does not unpickle to a value of the stage is a miss.  [now] is the
    evaluation instant of the pipeline. *)
Definition cached_value {I V} (k : StageKind) (encode : V -> CachedVal)
    (decode : CachedVal -> option V) (expiry : I -> V -> Z)
    (inner : I -> M V) (cache : Shelf) (now : Z) (input : I) : M V :=
  entry <- cache_get cache (stage_key k) ;;
  match live_value decode now entry with
  | Some v => ret v
  | None =>
      v <- inner input ;;
      cache_put cache (stage_key k)
        {| ce_value := encode v; ce_expires_at := expiry input v |} ;;;
      ret v
  end.

(** [cs.value(private_key)] *)
Fixpoint cs_value (now : Z) (st : Stage ClientSecret) (private_key : string)
    : M SignedSecret :=
  match st with
  | Direct cs => sign cs private_key
  | CacheBacked inner cache =>
      cached_value KSecret CVSecret decode_secret (fun _ v => ss_expires_at v)
        (cs_value now inner) cache now private_key
  end.

(** [at.value(secret)] *)
Fixpoint at_value (now : Z) (st : Stage AccessToken) (secret : SignedSecret)
    : M AccessTokenValue :=
  match st with
  | Direct tok => exchange now tok secret
  | CacheBacked inner cache =>
      cached_value KToken CVToken decode_token (fun _ v => atv_expires_at v)
        (at_value now inner) cache now secret
  end.

(** [rh.value(token)]; the headers have no expiry of their own and inherit
    the access token's. *)
Fixpoint rh_value (now : Z) (st : Stage RequestHeaders) (token : AccessTokenValue)
    : M RequestHeadersValue :=
  match st with
  | Direct rh => build_headers rh token
  | CacheBacked inner cache =>
      cached_value KHeaders CVHeaders decode_headers
        (fun t _ => atv_expires_at t)
        (rh_value now inner) cache now token
  end.

(** Line 111: [rh.value(at.value(cs.value(private_key)))].  Python evaluates
    the argument of a call before the call, so the three [value] methods run
    innermost first.  The instant [now] is modelled from the spec: the
    source hands the timestamp to the [ClientSecret] stage object only
    (lines 154 to 160), and where the exchanger and the wrappers take the
    instant of their expiry arithmetic and freshness checks from is in
    [auth] and [auth.cache]; section 4.4 wants one instant for the three
    stages, which [now] is.  What [do_sync] itself does with the timestamp
    is stated on [do_sync_with] below, which leaves the stage classes
    open. *)
Definition pipeline_value (now : Z) (auth_objects : AuthObjects)
    (private_key : string) : M RequestHeadersValue :=
  let '(cs, tok, rh) := auth_objects in
  secret <- cs_value now cs private_key ;;
  token <- at_value now tok secret ;;
  rh_value now rh token.

(** ** [sync_concrete_stream] *)

Definition write_record (stream_name : string) (record : Record_) : M unit :=
  emit (EvWriteRecord stream_name record).

(** A call of a data-fetch endpoint with the request headers. *)
Definition fetch (api : string) (headers : RequestHeadersValue) (args : list Val)
    (reply : Result (list Record_)) : M (list Record_) :=
  emit (EvFetch api headers args) ;;; lift reply.

Definition sync_concrete_stream (state : State) (stream_name : string)
    (headers : RequestHeadersValue) (additional : Additional)
    : M (State * Additional) :=
  if String.eqb stream_name "campaign" then
    campaing_records <- fetch "campaign.sync" headers [] (campaign_sync headers) ;;
    for_each (fun record => write_record stream_name record) campaing_records ;;;
    ret (state, additional)
  else if String.eqb stream_name "campaign_flat" then
    campaing_records <- fetch "campaign.sync" headers [] (campaign_sync headers) ;;
    for_each (fun record =>
                record' <- lift (campaign_to_schema record) ;;
                write_record stream_name record') campaing_records ;;;
    ret (state, additional)
  else if String.eqb stream_name "campaign_level_reports" then
    reports_records <-
      fetch "campaign_level_reports.sync" headers
        [a_start_time additional; a_end_time additional; a_selector additional]
        (campaign_level_reports_sync headers (a_start_time additional)
           (a_end_time additional) (a_selector additional)) ;;
    for_each (fun record => write_record stream_name record) reports_records ;;;
    ret (state, additional)
  else if String.eqb stream_name "campaign_level_reports_extended_spend_row" then
    reports_records <-
      fetch "campaign_level_reports.sync_extended_spend_row" headers
        [a_start_time additional; a_end_time additional; a_selector additional]
        (campaign_level_reports_sync_extended_spend_row headers
           (a_start_time additional) (a_end_time additional)
           (a_selector additional)) ;;
    for_each (fun record => write_record stream_name record) reports_records ;;;
    ret (state, additional)
  else if String.eqb stream_name "campaign_level_reports_extended_spend_row_flat" then
    reports_records <-
      fetch "campaign_level_reports.sync_extended_spend_row" headers
        [a_start_time additional; a_end_time additional; a_selector additional]
        (campaign_level_reports_sync_extended_spend_row headers
           (a_start_time additional) (a_end_time additional)
           (a_selector additional)) ;;
    for_each (fun record =>
                record' <- lift (campaign_level_reports_flatten record) ;;
                write_record stream_name record') reports_records ;;;
    ret (state, additional)
  else if String.eqb stream_name "impression_share_reports" then
    let current_bookmark_value := get_bookmark state stream_name "date" in
    additional1 <-
      (if bool_decide (current_bookmark_value = VNone) then ret additional
       else
         t <- lift (strptime_to_utc current_bookmark_value) ;;
         ret {| a_start_time := VTime (t + seconds_per_day);
                a_end_time := a_end_time additional;
                a_selector := a_selector additional |}) ;;
    additional2 <-
      (if bool_decide (a_end_time additional1 = VNone) then
         today <- read_clock ;;
         ret {| a_start_time := a_start_time additional1;
                a_end_time := VTime (today - seconds_per_day);
                a_selector := a_selector additional1 |}
       else ret additional1) ;;
    reports_records <-
      fetch "impression_share_reports.sync" headers
        [a_start_time additional2; a_end_time additional2;
         VStr "custom_reports_selector"]
        (impression_share_reports_sync headers (a_start_time additional2)
           (a_end_time additional2) (VStr "custom_reports_selector")) ;;
    for_each (fun record => write_record stream_name record) reports_records ;;;
    let records_count := VInt (Z.of_nat (length reports_records)) in
    max_report_date <- lift (max_date reports_records) ;;
    let state1 := write_bookmark state stream_name "date" max_report_date in
    let state2 := write_bookmark state1 stream_name "latestRecordCount" records_count in
    ret (state2, additional2)
  else
    raise (TapAppleSearchAdsException
             ("Unknown stream: [" +:+ stream_name +:+ "]")).

(** ** [sync_stream] and [do_sync] *)

(** The state and the [additional] dict are Python objects that
    [sync_concrete_stream] updates in place, so what one stream leaves is
    what the next one finds: both are threaded through.  Logging and the
    monotonic timer around it are left out. *)
Definition sync_stream (stream_name : string) (stream : CatalogEntry)
    (state : State) (headers : RequestHeadersValue) (additional : Additional)
    : M (State * Additional) :=
  if negb (selected stream) then ret (state, additional)
  else
    emit (EvWriteSchema stream_name (key_properties stream)) ;;;
    r <- sync_concrete_stream state stream_name headers additional ;;
    emit (EvWriteState r.1) ;;;
    ret r.

(** [for stream in catalog.streams: sync_stream(...)] *)
Fixpoint sync_streams (streams : list CatalogEntry) (state : State)
    (headers : RequestHeadersValue) (additional : Additional)
    : M (State * Additional) :=
  match streams with
  | [] => ret (state, additional)
  | stream :: rest =>
      r <- sync_stream (tap_stream_id stream) stream state headers additional ;;
      sync_streams rest r.1 headers r.2
  end.

Definition do_sync (config : gmap string string) (catalog : list CatalogEntry)
    (state : State) : M Z :=
  timestamp <- read_clock ;;
  config_ <- lift (from_mapping config) ;;
  let auth_objects := set_up_authentication timestamp config_ in
  auth_objects <-
    (if local_caching config_ then
       cache <- get_or_create_cache (tmp_dir config_) (auth_cache_file config_) ;;
       let '(cs, tok, rh) := auth_objects in
       ret (add_caching cs tok rh cache)
     else ret auth_objects) ;;
  private_key <- load_private_key config ;;
  request_headers_value <- pipeline_value timestamp auth_objects private_key ;;
  let additional_params := {| a_start_time := start_time config_;
                              a_end_time := end_time config_;
                              a_selector := selector config_ |} in
  sync_streams catalog state request_headers_value additional_params ;;;
  ret 0.

(** The secret a stage object signs, given the encoder's token. *)
Definition secret_of (cs : ClientSecret) (token : string) : SignedSecret :=
  {| ss_token := token;
     ss_issued_at := cs_timestamp cs;
     ss_expires_at := cs_timestamp cs + cs_expiration_time cs |}.

Definition signing (cs : ClientSecret) (pk : string) : Result string :=
  jwt_encode (cs_headers cs) (cs_payload cs) (cs_timestamp cs)
    (cs_timestamp cs + cs_expiration_time cs) pk.

Definition headers_of (rh : RequestHeaders) (t : AccessTokenValue)
    : RequestHeadersValue :=
  {| rhv_org_id := rh_org_id rh;
     rhv_authorization := "Bearer " +:+ atv_token t |}.

Definition secret_entry (s : SignedSecret) : CacheEntry :=
  {| ce_value := CVSecret s; ce_expires_at := ss_expires_at s |}.

Definition token_entry (t : AccessTokenValue) : CacheEntry :=
  {| ce_value := CVToken t; ce_expires_at := atv_expires_at t |}.

Definition headers_entry (t : AccessTokenValue) (h : RequestHeadersValue)
    : CacheEntry :=
  {| ce_value := CVHeaders h; ce_expires_at := atv_expires_at t |}.

(** Lines 100 to 111 of [do_sync] on their own, for a given timestamp:
    everything between the reading of the clock and the request headers. *)
Definition authenticate_at (timestamp : Z) (config : gmap string string)
    : M (Authentication * RequestHeadersValue) :=
  config_ <- lift (from_mapping config) ;;
  let auth_objects := set_up_authentication timestamp config_ in
  auth_objects <-
    (if local_caching config_ then
       cache <- get_or_create_cache (tmp_dir config_) (auth_cache_file config_) ;;
       let '(cs, tok, rh) := auth_objects in
       ret (add_caching cs tok rh cache)
     else ret auth_objects) ;;
  private_key <- load_private_key config ;;
  request_headers_value <- pipeline_value timestamp auth_objects private_key ;;
  ret (config_, request_headers_value).

(** Lines 97 to 111: the clock is read, and the rest runs with what it
    showed.  [do_sync_split] below shows [do_sync] to be this, followed by
    the loop over the streams. *)
Definition authenticate (config : gmap string string)
    : M (Authentication * RequestHeadersValue) :=
  timestamp <- read_clock ;;
  authenticate_at timestamp config.

(** ** [do_sync], whatever the stage classes do *)

(** The stage object under the [auth.cache] wrappers. *)
Fixpoint unwrap {A} (st : Stage A) : A :=
  match st with
  | Direct a => a
  | CacheBacked inner _ => unwrap inner
  end.

(** The timestamp a pipeline was built with: the one its [ClientSecret]
    stage object carries. *)
Definition objects_timestamp (auth_objects : AuthObjects) : Z :=
  cs_timestamp (unwrap auth_objects.1.1).

(** Modelled from the spec: line 111 as the stage classes of sections 4.1
    to 4.4 evaluate it.  Line 111 hands over the three stage objects and the
    private key and nothing else; the one instant of section 4.4 is the
    timestamp the [ClientSecret] stage object was built with. *)
Definition spec_pipeline (auth_objects : AuthObjects) (private_key : string)
    : M RequestHeadersValue :=
  pipeline_value (objects_timestamp auth_objects) auth_objects private_key.

Section Wiring.

(** What [rh.value(at.value(cs.value(private_key)))] does is decided by the
    classes of [auth] and [auth.cache]; [evaluate] stands for it: any
    computation on the three stage objects and the private key, which may
    sign, use the transport and the cache, and read the clock. *)
Variable evaluate : AuthObjects -> string -> M RequestHeadersValue.

(** Line 111 to the end of [do_sync]: the headers, then the loop. *)
Definition from_line_111 (config_ : Authentication) (auth_objects : AuthObjects)
    (private_key : string) (catalog : list CatalogEntry) (state : State) : M Z :=
  request_headers_value <- evaluate auth_objects private_key ;;
  let additional_params := {| a_start_time := start_time config_;
                              a_end_time := end_time config_;
                              a_selector := selector config_ |} in
  sync_streams catalog state request_headers_value additional_params ;;;
  ret 0.

(** [do_sync], lines 96 to 125, with the evaluation of line 111 left to
    [evaluate]. *)
Definition do_sync_with (config : gmap string string)
    (catalog : list CatalogEntry) (state : State) : M Z :=
  timestamp <- read_clock ;;
  config_ <- lift (from_mapping config) ;;
  let auth_objects := set_up_authentication timestamp config_ in
  auth_objects <-
    (if local_caching config_ then
       cache <- get_or_create_cache (tmp_dir config_) (auth_cache_file config_) ;;
       let '(cs, tok, rh) := auth_objects in
       ret (add_caching cs tok rh cache)
     else ret auth_objects) ;;
  private_key <- load_private_key config ;;
  request_headers_value <- evaluate auth_objects private_key ;;
  let additional_params := {| a_start_time := start_time config_;
                              a_end_time := end_time config_;
                              a_selector := selector config_ |} in
  sync_streams catalog state request_headers_value additional_params ;;;
  ret 0.

End Wiring.

End Tap.

(** The outcome [x], reached after the events [pre]. *)
Definition after_events {A} (pre : list Event) (x : Result A * World * list Event)
    : Result A * World * list Event :=
  (x.1.1, x.1.2, pre ++ x.2).

(** The world after one request to the transport. *)
Definition after_post (w : World) : World :=
  match w_net w with
  | [] => w
  | _ :: rest => with_net w rest
  end.

(** The reply the transport gives next. *)
Definition next_reply (w : World) : option Response :=
  match w_net w with
  | [] => None
  | r :: _ => r
  end.

(** ** Reading traces *)

(** How often the stage of kind [k] was invoked. *)
Fixpoint calls (k : StageKind) (tr : list Event) : nat :=
  match tr with
  | [] => 0%nat
  | EvInvoke k' :: rest =>
      ((if bool_decide (k' = k) then 1 else 0) + calls k rest)%nat
  | _ :: rest => calls k rest
  end.

(** How often the system clock was read. *)
Fixpoint clock_reads (tr : list Event) : nat :=
  match tr with
  | [] => 0%nat
  | EvClock _ :: rest => S (clock_reads rest)
  | _ :: rest => clock_reads rest
  end.

(** Events of the stream phase: data fetches and Singer output. *)
Definition stream_event (e : Event) : bool :=
  match e with
  | EvFetch _ _ _ | EvWriteSchema _ _ | EvWriteRecord _ _ | EvWriteState _ => true
  | _ => false
  end.


(** Events of the set-up: the directory check, the shelf, the key file. *)
Definition setup_event (e : Event) : bool :=
  match e with
  | EvExists _ | EvShelveOpen _ | EvReadKeyFile _ => true
  | _ => false
  end.

(** What the loop over the streams may emit when it was handed the headers
    [h]: Singer output, fetches that carry [h], and the clock reading behind
    a defaulted end time. *)
Definition stream_phase_event (h : RequestHeadersValue) (e : Event) : bool :=
  match e with
  | EvFetch _ h' _ => bool_decide (h' = h)
  | EvWriteSchema _ _ | EvWriteRecord _ _ | EvWriteState _ | EvClock _ => true
  | _ => false
  end.


(** The trace of one evaluation of the pipeline: each stage at most once,
    in the order signer, exchanger, header builder. *)
Definition pipeline_events (tr : list Event) : Prop :=
  exists a b c,
    tr = a ++ b ++ c /\
    (a = [] \/ a = [EvInvoke KSecret]) /\
    (b = [] \/ b = [EvInvoke KToken]) /\
    (c = [] \/ c = [EvInvoke KHeaders]).


(** The stream ids of the selected entries of a catalog, in order. *)
Fixpoint selected_names (streams : list CatalogEntry) : list string :=
  match streams with
  | [] => []
  | s :: rest =>
      if selected s then tap_stream_id s :: selected_names rest
      else selected_names rest
  end.

(** Every event a computation emits satisfies [P], whatever the world. *)
Definition emits {A} (P : Event -> Prop) (m : M A) : Prop :=
  forall w, Forall P (trace_of (m w)).

(** ** A concrete environment, for the examples *)

Definition demo_config_ : Authentication :=
  {| client_id := "c1"; team_id := "t1"; key_id := "k1"; org_id := "org1";
     audience := "a1"; algorithm := "ES256"; url := "https://appleid.example/token";
     expiration_time := 1200; local_caching := true;
     tmp_dir := "/tmp"; auth_cache_file := "auth";
     start_time := VNone; end_time := VNone; selector := VNone |}.

(** Signing fails on an empty key; a reply body is the bearer token itself,
    valid for an hour; an empty body does not parse. *)
Definition demo : Collaborators :=
  {| from_mapping := fun config =>
       match config !! "client_id" with
       | Some c =>
           Ok {| client_id := c; team_id := "t1"; key_id := "k1"; org_id := "org1";
                 audience := "a1"; algorithm := "ES256";
                 url := "https://appleid.example/token";
                 expiration_time := 1200;
                 local_caching := bool_decide (config !! "local_caching" = Some "true");
                 tmp_dir := default "/tmp" (config !! "tmp_dir");
                 auth_cache_file := "auth";
                 start_time := VNone; end_time := VNone; selector := VNone |}
       | None => Raise (KeyError "client_id")
       end;
     as_posix := fun p => p;
     joinpath := fun d f => d +:+ "/" +:+ f;
     jwt_encode := fun h p iat exp key =>
       if String.eqb key "" then Raise (SigningError "malformed key")
       else Ok ("jwt." +:+ p_client_id p +:+ "." +:+ key);
     parse_token_body := fun b =>
       if String.eqb b "" then None else Some (b, 3600);
     campaign_sync := fun _ => Ok [ {[ "id" := VInt 1 ]} ];
     campaign_to_schema := fun r => Ok r;
     campaign_level_reports_sync := fun _ _ _ _ => Ok [];
     campaign_level_reports_sync_extended_spend_row := fun _ _ _ _ => Ok [];
     campaign_level_reports_flatten := fun r => Ok r;
     impression_share_reports_sync := fun _ _ _ _ =>
       Ok [ {[ "date" := VStr "2024-01-02" ]}; {[ "date" := VStr "2024-01-03" ]} ];
     strptime_to_utc := fun v =>
       match v with
       | VTime t => Ok t
       | _ => Raise (ValueError "not a datetime")
       end |}.

(** A fresh process on a machine where [/tmp] exists and nothing else does:
    the clock shows 1000 and advances a second per reading, and the dbm
    module keeps a shelf in one file, with the extension [.db]. *)
Definition fresh_world : World :=
  {| w_clock := fun n => 1000 + Z.of_nat n; w_reads := 0;
     w_paths := {[ "/tmp" ]}; w_dbm := fun p => {[ p +:+ ".db" ]};
     w_files := ∅; w_store := ∅;
     w_opened := 0; w_cache := None; w_net := [] |}.

Definition demo_shelf : Shelf := {| shelf_id := 0; shelf_path := "/tmp/auth" |}.

(** The stage objects of the example configuration, built at the instant
    [t], without and with the caching wrappers. *)
Definition demo_objects (t : Z) : AuthObjects :=
  set_up_authentication t demo_config_.

Definition demo_cached (t : Z) : AuthObjects :=
  let '(cs, tok, rh) := set_up_authentication t demo_config_ in
  add_caching cs tok rh demo_shelf.

(** A machine whose shelf [/tmp/auth] is open and empty, in the file
    [/tmp/auth.db], and whose transport will give the replies [net]. *)
Definition served_world (net : list (option Response)) : World :=
  {| w_clock := fun n => 1000 + Z.of_nat n; w_reads := 0;
     w_paths := {[ "/tmp"; "/tmp/auth.db" ]};
     w_dbm := fun p => {[ p +:+ ".db" ]}; w_files := ∅;
     w_store := {[ "/tmp/auth" := ∅ ]};
     w_opened := 1; w_cache := Some demo_shelf; w_net := net |}.

(** The world a first cached evaluation at the instant 1000 leaves, when
    the exchange answered with the token [old] and the transport holds the
    token [new] for the next request: the secret in the shelf expires at
    2200, the token and the headers at 4600. *)
Definition after_first_run : World :=
  world_of
    (pipeline_value (env := demo) 1000 (demo_cached 1000) "KEY"
       (served_world [ Some {| status_code := 200; body := "old" |};
                       Some {| status_code := 200; body := "new" |} ])).

(** The world of a run whose exchange is refused. *)
Definition refusing_world : World :=
  served_world [ Some {| status_code := 401; body := "unauthorized" |} ].

(** The world a first cached evaluation at the instant 1000 leaves when its
    exchange is refused, once the transport is ready to answer with a token:
    the shelf holds the secret, which expires at 2200, and nothing else. *)
Definition retry_world : World :=
  with_net
    (world_of (pipeline_value (env := demo) 1000 (demo_cached 1000) "KEY"
                 refusing_world))
    [ Some {| status_code := 200; body := "abc" |} ].

(** The three stage objects of the example configuration. *)
Definition demo_cs (t : Z) : ClientSecret :=
  {| cs_timestamp := t; cs_expiration_time := 1200;
     cs_headers := {| h_key_id := "k1"; h_algorithm := "ES256" |};
     cs_payload := {| p_client_id := "c1"; p_team_id := "t1";
                      p_audience := "a1" |} |}.

Definition demo_tok : AccessToken :=
  {| at_client_id := "c1"; at_url := "https://appleid.example/token" |}.

Definition demo_rh : RequestHeaders := {| rh_org_id := "org1" |}.

Definition demo_config : gmap string string :=
  {[ "client_id" := "c1"; "private_key_value" := "KEY";
     "local_caching" := "true"; "tmp_dir" := "/nowhere" ]}.

Definition inline_key_config : gmap string string :=
  {[ "private_key_value" := "KEY"; "private_key_file" := "/key.p8" ]}.

Definition file_key_config : gmap string string :=
  {[ "private_key_file" := "/key.p8" ]}.

Definition no_key_config : gmap string string :=
  {[ "client_id" := "c1" ]}.

(** ** Discovery *)

(** One element of the [metadata] list of a catalog stream: the breadcrumb
    and the metadata object under it. *)
Record MetadataEntry := {
  md_breadcrumb : list string;
  md_metadata : gmap string bool }.

(** One element of the [streams] list that [do_discover] prints. *)
Record DiscoveredStream := {
  ds_stream : string;
  ds_tap_stream_id : string;
  ds_schema : Record_;
  ds_metadata : list MetadataEntry }.

(** [metadata.to_map(md).get((), {}).get("selected", False)], as
    [sync_stream] computes it: the entries are keyed by breadcrumb, a later
    entry replacing an earlier one with the same breadcrumb. *)
Fixpoint metadata_selected_from (found : bool) (md : list MetadataEntry) : bool :=
  match md with
  | [] => found
  | entry :: rest =>
      match md_breadcrumb entry with
      | [] => metadata_selected_from (default false (md_metadata entry !! "selected")) rest
      | _ :: _ => metadata_selected_from found rest
      end
  end.

Definition metadata_selected (md : list MetadataEntry) : bool :=
  metadata_selected_from false md.

(** The catalog entry [do_sync] sees when it is handed a printed stream
    back. *)
Definition catalog_entry_of (d : DiscoveredStream) : CatalogEntry :=
  {| tap_stream_id := ds_tap_stream_id d;
     selected := metadata_selected (ds_metadata d);
     key_properties := [] |}.

Section Discovery.

(** [load_schema]: the schema package behind it is not part of
    [__init__.py]; a missing or broken schema file is an exception. *)
Variable load_schema : string -> Result Record_.

(** The loop of [do_discover] over [STREAMS]: the entries appended to
    [result["streams"]], or the exception of the first schema that fails. *)
Fixpoint discover_streams (streams : list string) : Result (list DiscoveredStream) :=
  match streams with
  | [] => Ok []
  | stream :: rest =>
      match load_schema stream with
      | Raise e => Raise e
      | Ok stream_schema =>
          match discover_streams rest with
          | Raise e => Raise e
          | Ok entries =>
              Ok ({| ds_stream := stream;
                     ds_tap_stream_id := stream;
                     ds_schema := stream_schema;
                     ds_metadata :=
                       [ {| md_breadcrumb := [];
                            md_metadata := {[ "selected" := false ]} |} ] |}
                    :: entries)
          end
      end
  end.

(** [do_discover]: the return value, and what [json.dump] wrote to the
    standard output, if it was reached. *)
Definition do_discover : Result Z * option (list DiscoveredStream) :=
  match discover_streams STREAMS with
  | Ok entries => (Ok 0, Some entries)
  | Raise e => (Raise e, None)
  end.

End Discovery.

(** ** More ways to read a run *)

(** The selected entries of a catalog, in order. *)
Fixpoint selected_entries (streams : list CatalogEntry) : list CatalogEntry :=
  match streams with
  | [] => []
  | s :: rest =>
      if selected s then s :: selected_entries rest else selected_entries rest
  end.

(** The state of the last [singer.write_state] of a trace. *)
Fixpoint last_state (tr : list Event) : option State :=
  match tr with
  | [] => None
  | EvWriteState st :: rest =>
      match last_state rest with
      | Some st' => Some st'
      | None => Some st
      end
  | _ :: rest => last_state rest
  end.

(** Events of the cache set-up. *)
Definition cache_event (e : Event) : bool :=
  match e with
  | EvExists _ | EvShelveOpen _ => true
  | _ => false
  end.

(** What a run can do to the cache: the shelf files, the paths, the count
    of opened shelves, the module-level handle. *)
Definition cache_footprint (w : World)
    : gmap string (gmap string CacheEntry) * gset string * nat * option Shelf :=
  (w_store w, w_paths w, w_opened w, w_cache w).

(** A computation leaves the observation [f] of the world as it was. *)
Definition keeps {A X} (f : World -> X) (m : M A) : Prop :=
  forall w, f (world_of (m w)) = f w.

Definition impression_api : string := "impression_share_reports.sync".

Definition impression_stream : string := "impression_share_reports".

(** An environment whose campaign endpoint returns a record that does not
    convert after one that does, and whose impression-share endpoint has
    nothing to report. *)
Definition sparse : Collaborators :=
  {| from_mapping := from_mapping (Collaborators := demo);
     as_posix := fun p => p;
     joinpath := fun d f => d +:+ "/" +:+ f;
     jwt_encode := jwt_encode (Collaborators := demo);
     parse_token_body := parse_token_body (Collaborators := demo);
     campaign_sync := fun _ =>
       Ok [ {[ "id" := VInt 1 ]}; {[ "name" := VStr "no id" ]}; {[ "id" := VInt 3 ]} ];
     campaign_to_schema := fun r =>
       match r !! "id" with
       | Some _ => Ok r
       | None => Raise (KeyError "id")
       end;
     campaign_level_reports_sync := fun _ _ _ _ => Ok [];
     campaign_level_reports_sync_extended_spend_row := fun _ _ _ _ => Ok [];
     campaign_level_reports_flatten := fun r => Ok r;
     impression_share_reports_sync := fun _ _ _ _ => Ok [];
     strptime_to_utc := strptime_to_utc (Collaborators := demo) |}.

Definition demo_headers : RequestHeadersValue :=
  {| rhv_org_id := "org1"; rhv_authorization := "Bearer abc" |}.

Definition demo_additional : Additional :=
  {| a_start_time := VTime 500; a_end_time := VNone; a_selector := VNone |}.

(** A state whose impression-share bookmark is the datetime 86400. *)
Definition bookmarked_state : State :=
  {[ "impression_share_reports" := {[ "date" := VTime 86400 ]} ]}.

Definition unknown_entry : CatalogEntry :=
  {| tap_stream_id := "keywords"; selected := true; key_properties := ["id"] |}.

Definition campaign_entry : CatalogEntry :=
  {| tap_stream_id := "campaign"; selected := true; key_properties := ["id"] |}.

Definition skipped_entry : CatalogEntry :=
  {| tap_stream_id := "keywords"; selected := false; key_properties := [] |}.

Definition impression_entry : CatalogEntry :=
  {| tap_stream_id := "impression_share_reports"; selected := true;
     key_properties := [] |}.

Definition reports_entry : CatalogEntry :=
  {| tap_stream_id := "campaign_level_reports"; selected := true;
     key_properties := [] |}.

Definition plain_config : gmap string string :=
  {[ "client_id" := "c1"; "private_key_value" := "KEY" ]}.


(** Schemas load for every name but the empty one. *)
Definition demo_load_schema (name : string) : Result Record_ :=
  if String.eqb name "" then Raise (OSError "no schema")
  else Ok {[ "type" := VStr "object" ]}.

(** The schema of [campaign_level_reports] is missing. *)
Definition broken_load_schema (name : string) : Result Record_ :=
  if String.eqb name "campaign_level_reports" then Raise (OSError "no schema")
  else Ok {[ "type" := VStr "object" ]}.

Section Windows.

Context {env : Collaborators}.

(** The start of the window [impression_share_reports] requests: the
    configured start time without a [date] bookmark, the day after the
    bookmark with one. *)
Definition window_start (state : State) (additional : Additional) (start : Val)
    : Prop :=
  let b := get_bookmark state impression_stream "date" in
  (b = VNone /\ start = a_start_time additional) \/
  (b <> VNone /\
   exists t, strptime_to_utc b = Ok t /\ start = VTime (t + seconds_per_day)).

End Windows.

(** An environment whose impression-share endpoint reports two days, dated
    by datetimes. *)
Definition dated : Collaborators :=
  {| from_mapping := from_mapping (Collaborators := demo);
     as_posix := fun p => p;
     joinpath := fun d f => d +:+ "/" +:+ f;
     jwt_encode := jwt_encode (Collaborators := demo);
     parse_token_body := parse_token_body (Collaborators := demo);
     campaign_sync := campaign_sync (Collaborators := demo);
     campaign_to_schema := fun r => Ok r;
     campaign_level_reports_sync := fun _ _ _ _ => Ok [];
     campaign_level_reports_sync_extended_spend_row := fun _ _ _ _ => Ok [];
     campaign_level_reports_flatten := fun r => Ok r;
     impression_share_reports_sync := fun _ _ _ _ =>
       Ok [ {[ "date" := VTime 259200 ]}; {[ "date" := VTime 172800 ]} ];
     strptime_to_utc := strptime_to_utc (Collaborators := demo) |}.

Definition record_1 : Record_ := {[ "id" := VInt 1 ]}.
Definition record_no_id : Record_ := {[ "name" := VStr "no id" ]}.
Definition record_3 : Record_ := {[ "id" := VInt 3 ]}.
Definition day_3 : Record_ := {[ "date" := VTime 259200 ]}.
Definition day_2 : Record_ := {[ "date" := VTime 172800 ]}.

(** What the [dated] endpoint leaves after a first sync from the empty
    state at the instant 1000, with no end time configured. *)
Definition dated_result : State * Additional :=
  (write_bookmark
     (write_bookmark ∅ impression_stream "date" (VTime 259200))
     impression_stream "latestRecordCount" (VInt 2),
   {| a_start_time := VTime 500;
      a_end_time := VTime (1000 - seconds_per_day);
      a_selector := VNone |}).

Definition dated_trace : list Event :=
  [ EvClock 1000;
    EvFetch impression_api demo_headers
      [VTime 500; VTime (1000 - seconds_per_day); VStr "custom_reports_selector"];
    EvWriteRecord impression_stream day_3;
    EvWriteRecord impression_stream day_2 ].

(** A state whose bookmark is not a datetime. *)
Definition garbled_state : State :=
  {[ "impression_share_reports" := {[ "date" := VStr "yesterday" ]} ]}.

(** A fresh machine whose transport answers the exchange with a token. *)
Definition online_world : World :=
  {| w_clock := fun n => 1000 + Z.of_nat n; w_reads := 0;
     w_paths := {[ "/tmp" ]}; w_dbm := fun p => {[ p +:+ ".db" ]};
     w_files := ∅; w_store := ∅;
     w_opened := 0; w_cache := None;
     w_net := [ Some {| status_code := 200; body := "abc" |} ] |}.

Definition plain_config_ : Authentication :=
  {| client_id := "c1"; team_id := "t1"; key_id := "k1"; org_id := "org1";
     audience := "a1"; algorithm := "ES256";
     url := "https://appleid.example/token";
     expiration_time := 1200; local_caching := false;
     tmp_dir := "/tmp"; auth_cache_file := "auth";
     start_time := VNone; end_time := VNone; selector := VNone |}.


(** What discovery prints when every schema loads. *)
Definition demo_discovered : list DiscoveredStream :=
  match do_discover demo_load_schema with
  | (_, Some entries) => entries
  | (_, None) => []
  end.

(** * Properties *)

Section Properties.

Context {env : Collaborators}.

(** ** Basic equations *)

Lemma shelf_dict_put (w : World) (cache : Shelf) (key : string) (e : CacheEntry) :
  shelf_dict (store_entry w cache key e) cache = <[ key := e ]> (shelf_dict w cache).
Proof. unfold store_entry, shelf_dict. simpl. by rewrite lookup_insert_eq. Qed.

Lemma calls_app (k : StageKind) (a b : list Event) :
  calls k (a ++ b) = (calls k a + calls k b)%nat.
Proof.
  induction a as [|e a IH]; simpl; [done|].
  destruct e; auto. rewrite IH. lia.
Qed.

Lemma sign_eq (cs : ClientSecret) (private_key : string) (w : World) :
  sign cs private_key w =
  (match jwt_encode (cs_headers cs) (cs_payload cs) (cs_timestamp cs)
           (cs_timestamp cs + cs_expiration_time cs) private_key with
   | Ok token => Ok {| ss_token := token;
                       ss_issued_at := cs_timestamp cs;
                       ss_expires_at := cs_timestamp cs + cs_expiration_time cs |}
   | Raise e => Raise e
   end, w, [EvInvoke KSecret]).
Proof.
  unfold sign, bind, emit, lift, ret.
  by destruct (jwt_encode _ _ _ _ _).
Qed.

Lemma exchange_eq (now : Z) (tok : AccessToken) (secret : SignedSecret) (w : World) :
  exchange now tok secret w =
  (token_of_reply now (next_reply w), after_post w, [EvInvoke KToken]).
Proof.
  unfold exchange, bind, emit, lift, transport_post, next_reply, after_post.
  by destruct (w_net w).
Qed.

Lemma build_headers_eq (rh : RequestHeaders) (token : AccessTokenValue) (w : World) :
  build_headers rh token w =
  (Ok {| rhv_org_id := rh_org_id rh;
         rhv_authorization := "Bearer " +:+ atv_token token |}, w,
   [EvInvoke KHeaders]).
Proof. reflexivity. Qed.

Lemma cached_value_hit {I V} (k : StageKind) (enc : V -> CachedVal)
    (dec : CachedVal -> option V) (exp : I -> V -> Z) (inner : I -> M V)
    (cache : Shelf) (now : Z) (input : I) (w : World) (v : V) :
  live_value dec now (shelf_dict w cache !! stage_key k) = Some v ->
  cached_value k enc dec exp inner cache now input w = (Ok v, w, []).
Proof.
  intros Hlive. unfold cached_value, bind, cache_get. by rewrite Hlive.
Qed.

Lemma cached_value_miss {I V} (k : StageKind) (enc : V -> CachedVal)
    (dec : CachedVal -> option V) (exp : I -> V -> Z) (inner : I -> M V)
    (cache : Shelf) (now : Z) (input : I) (w : World) :
  live_value dec now (shelf_dict w cache !! stage_key k) = None ->
  cached_value k enc dec exp inner cache now input w =
  match inner input w with
  | (Ok v, w1, t) =>
      (Ok v,
       store_entry w1 cache (stage_key k)
         {| ce_value := enc v; ce_expires_at := exp input v |},
       t)
  | (Raise e, w1, t) => (Raise e, w1, t)
  end.
Proof.
  intros Hlive. unfold cached_value, bind, cache_get. rewrite Hlive.
  destruct (inner input w) as [[[v|e] w1] t]; simpl; [|done].
  by rewrite app_nil_r.
Qed.

Lemma bind_ok_inv {A B} (m : M A) (k : A -> M B) (w : World) (b : B) :
  result_of (bind m k w) = Ok b ->
  exists a, result_of (m w) = Ok a /\ result_of (k a (world_of (m w))) = Ok b.
Proof.
  unfold bind, result_of, world_of.
  destruct (m w) as [[[a|e] w1] t1]; simpl; [|discriminate].
  destruct (k a w1) as [[r w2] t2] eqn:Hk; simpl. intros ->.
  exists a. by rewrite Hk.
Qed.

Lemma bind_ret_inv {A B} (m : M A) (x : B) (w : World) (b : B) :
  result_of (bind m (fun _ => ret x) w) = Ok b -> b = x.
Proof.
  intros Hb. apply bind_ok_inv in Hb as (a & _ & Hb).
  unfold result_of, ret in Hb. simpl in Hb. congruence.
Qed.

(** ** [load_private_key] *)

Lemma load_private_key_missing (config : gmap string string) (w : World) :
  config !! "private_key_value" = None ->
  config !! "private_key_file" = None ->
  load_private_key config w =
  (Raise (TapAppleSearchAdsException "Missing private key configuration parameters"),
   w, []).
Proof. intros Hv Hf. unfold load_private_key. by rewrite Hv, Hf. Qed.

Lemma create_cache_quiet (cache_dir cache_file : string) (w : World) :
  Forall (fun e => stream_event e = false)
    (trace_of (create_cache cache_dir cache_file w)).
Proof.
  unfold create_cache, bind, path_exists, shelve_open, raise, trace_of.
  destruct (bool_decide _); simpl; repeat constructor.
Qed.

Lemma get_or_create_cache_quiet (cache_dir cache_file : string) (w : World) :
  Forall (fun e => stream_event e = false)
    (trace_of (get_or_create_cache cache_dir cache_file w)).
Proof.
  unfold get_or_create_cache.
  destruct (w_cache w) as [c|]; [|apply create_cache_quiet].
  destruct (truthy w (Some c)); [constructor|apply create_cache_quiet].
Qed.

(** C3: an inline [private_key_value] wins and no file is read; failing
    that, the key is the text of the file named by [private_key_file];
    failing both, [load_private_key] raises [TapAppleSearchAdsException],
    and a run of [do_sync] with such a configuration ends in an exception
    without having fetched or written anything of any stream. *)
Theorem load_private_key_sources (config : gmap string string) (w : World) :
  (forall v, config !! "private_key_value" = Some v ->
     load_private_key config w = (Ok v, w, [])) /\
  (forall f, config !! "private_key_value" = None ->
     config !! "private_key_file" = Some f ->
     load_private_key config w =
     (match w_files w !! f with
      | Some text => Ok text
      | None => Raise (OSError ("No such file or directory: " +:+ f))
      end, w, [EvReadKeyFile f])) /\
  (config !! "private_key_value" = None ->
   config !! "private_key_file" = None ->
   load_private_key config w =
   (Raise (TapAppleSearchAdsException "Missing private key configuration parameters"),
    w, []) /\
   forall catalog state,
     is_ok (result_of (do_sync config catalog state w)) = false /\
     Forall (fun e => stream_event e = false)
       (trace_of (do_sync config catalog state w))).
Proof.
  split; [|split].
  - intros v Hv. unfold load_private_key. by rewrite Hv.
  - intros f Hv Hf. unfold load_private_key. rewrite Hv, Hf.
    unfold read_private_key_from_file, bind, emit.
    by destruct (w_files w !! f).
  - intros Hv Hf. split; [by apply load_private_key_missing|].
    intros catalog state. unfold do_sync, bind, read_clock, lift.
    destruct (from_mapping config) as [cfg|e]; simpl;
      [|split; [done|repeat constructor]].
    destruct (local_caching cfg).
    + pose proof (get_or_create_cache_quiet (tmp_dir cfg) (auth_cache_file cfg)
                    (with_reads w (S (w_reads w)))) as Hq.
      destruct (get_or_create_cache _ _ _) as [[[c|e] w1] t1]; simpl in *.
      * rewrite load_private_key_missing by done. simpl.
        split; [done|]. constructor; [done|]. by rewrite !app_nil_r.
      * split; [done|]. constructor; [done|]. by rewrite ?app_nil_r.
    + simpl. rewrite load_private_key_missing by done. simpl.
      split; [done|repeat constructor].
Qed.

(** ** [get_or_create_cache] *)

Lemma create_cache_missing (cache_dir cache_file : string) (w : World) :
  as_posix cache_dir ∉ w_paths w ->
  create_cache cache_dir cache_file w =
  (Raise (OSError ("Cache directory [" +:+ as_posix cache_dir
                   +:+ "] does not exist")),
   w, [EvExists (as_posix cache_dir)]).
Proof.
  intros Hno. unfold create_cache, bind, path_exists.
  by rewrite bool_decide_eq_false_2.
Qed.

Lemma get_or_create_cache_falsy (cache_dir cache_file : string) (w : World) :
  truthy w (w_cache w) = false ->
  get_or_create_cache cache_dir cache_file w = create_cache cache_dir cache_file w.
Proof.
  intros Hf. unfold get_or_create_cache.
  destruct (w_cache w) as [c|]; [|done]. by rewrite Hf.
Qed.

(** A handle that is open on a shelf with entries is handed back as it is:
    nothing is checked, nothing is opened, the arguments do not matter. *)
Lemma get_or_create_cache_truthy (cache_dir cache_file : string) (w : World) :
  truthy w (w_cache w) = true ->
  exists c, w_cache w = Some c /\
    get_or_create_cache cache_dir cache_file w = (Ok c, w, []).
Proof.
  intros Ht. unfold get_or_create_cache.
  destruct (w_cache w) as [c|]; [|discriminate].
  exists c. by rewrite Ht.
Qed.

(** C2: with local caching enabled, a cache directory that does not exist,
    and the module-level [cache] not yet usable (it is [None] when the
    process starts), [get_or_create_cache] raises [OSError] right after the
    existence check, and [do_sync] ends with that exception: the only thing
    the run has done is to read the clock and to look for the directory; no
    shelf was created or opened and nothing else in the world changed. *)
Theorem missing_cache_directory_aborts (config : gmap string string)
    (cfg : Authentication) (catalog : list CatalogEntry) (state : State)
    (w : World) :
  from_mapping config = Ok cfg ->
  local_caching cfg = true ->
  as_posix (tmp_dir cfg) ∉ w_paths w ->
  truthy w (w_cache w) = false ->
  let err := OSError ("Cache directory [" +:+ as_posix (tmp_dir cfg)
                      +:+ "] does not exist") in
  get_or_create_cache (tmp_dir cfg) (auth_cache_file cfg) w =
    (Raise err, w, [EvExists (as_posix (tmp_dir cfg))]) /\
  do_sync config catalog state w =
    (Raise err, with_reads w (S (w_reads w)),
     [EvClock (w_clock w (w_reads w)); EvExists (as_posix (tmp_dir cfg))]).
Proof.
  intros Hcfg Hlc Hno Hf err. split.
  - rewrite get_or_create_cache_falsy by done. by apply create_cache_missing.
  - unfold do_sync, bind, read_clock, lift. rewrite Hcfg, Hlc.
    rewrite get_or_create_cache_falsy by done.
    by rewrite create_cache_missing.
Qed.

(** ** [sync_concrete_stream] *)

Ltac known_stream :=
  unfold STREAMS;
  repeat first [ apply list_elem_of_here | apply list_elem_of_further ].

Lemma unknown_stream_eqb (name known : string) :
  name ∉ STREAMS -> known ∈ STREAMS -> String.eqb name known = false.
Proof. intros Hn Hk. apply String.eqb_neq. by intros ->. Qed.

Lemma sync_concrete_stream_unknown (state : State) (name : string)
    (headers : RequestHeadersValue) (additional : Additional) (w : World) :
  name ∉ STREAMS ->
  sync_concrete_stream state name headers additional w =
  (Raise (TapAppleSearchAdsException ("Unknown stream: [" +:+ name +:+ "]")),
   w, []).
Proof.
  intros Hn. unfold sync_concrete_stream.
  repeat (rewrite (unknown_stream_eqb name _ Hn) by known_stream).
  reflexivity.
Qed.

(** C9: a stream name outside the six of [STREAMS] makes
    [sync_concrete_stream] raise [TapAppleSearchAdsException] with the name
    in its message, before anything is fetched or written; so a call that
    returns a state is a call with a known name, and for the five names
    other than [impression_share_reports] the state it returns is the state
    it was given. *)
Theorem unknown_stream_raises (state : State) (name : string)
    (headers : RequestHeadersValue) (additional : Additional) (w : World) :
  (name ∉ STREAMS ->
   sync_concrete_stream state name headers additional w =
   (Raise (TapAppleSearchAdsException ("Unknown stream: [" +:+ name +:+ "]")),
    w, [])) /\
  (forall r,
     result_of (sync_concrete_stream state name headers additional w) = Ok r ->
     name ∈ STREAMS /\
     (name <> "impression_share_reports" -> r.1 = state)).
Proof.
  split; [apply sync_concrete_stream_unknown|].
  intros r Hr.
  destruct (decide (name ∈ STREAMS)) as [Hin|Hout]; cycle 1.
  { by rewrite sync_concrete_stream_unknown in Hr. }
  split; [done|]. intros Hne. revert Hr. unfold sync_concrete_stream.
  repeat
    (match goal with
     | |- context [String.eqb name ?s] =>
         destruct (String.eqb name s) eqn:?
     end;
     [ first
         [ by (exfalso; apply Hne; apply String.eqb_eq)
         | intros Hr; apply bind_ok_inv in Hr as (recs & _ & Hr);
           apply bind_ret_inv in Hr; by subst r ]
     | ]).
  discriminate.
Qed.

(** ** The stages and their wrappers *)

Lemma shelf_dict_after_post (w : World) (cache : Shelf) :
  shelf_dict (after_post w) cache = shelf_dict w cache.
Proof. unfold after_post. by destruct (w_net w). Qed.

Lemma stage_key_inj (k k' : StageKind) : stage_key k = stage_key k' -> k = k'.
Proof. by destruct k, k'. Qed.

(** Storing under one stage's key leaves the other stages' entries alone. *)
Lemma lookup_put_other (w : World) (cache : Shelf) (k k' : StageKind)
    (e : CacheEntry) :
  k <> k' ->
  shelf_dict (store_entry w cache (stage_key k) e) cache !! stage_key k'
  = shelf_dict w cache !! stage_key k'.
Proof.
  intros Hne. rewrite shelf_dict_put. apply lookup_insert_ne.
  intros Heq. by apply Hne, stage_key_inj.
Qed.

Lemma lookup_put_same (w : World) (cache : Shelf) (k : StageKind) (e : CacheEntry) :
  shelf_dict (store_entry w cache (stage_key k) e) cache !! stage_key k = Some e.
Proof. rewrite shelf_dict_put. apply lookup_insert_eq. Qed.

Lemma store_entry_net (w : World) (cache : Shelf) (key : string) (e : CacheEntry) :
  w_net (store_entry w cache key e) = w_net w.
Proof. reflexivity. Qed.

Lemma next_reply_store_entry (w : World) (cache : Shelf) (key : string)
    (e : CacheEntry) :
  next_reply (store_entry w cache key e) = next_reply w.
Proof. reflexivity. Qed.

Lemma cs_cached_eq (now : Z) (cs : ClientSecret) (cache : Shelf) (pk : string)
    (w : World) :
  cs_value now (CacheBacked (Direct cs) cache) pk w =
  match live_value decode_secret now (shelf_dict w cache !! stage_key KSecret) with
  | Some s => (Ok s, w, [])
  | None =>
      match signing cs pk with
      | Ok token =>
          (Ok (secret_of cs token),
           store_entry w cache (stage_key KSecret) (secret_entry (secret_of cs token)),
           [EvInvoke KSecret])
      | Raise e => (Raise e, w, [EvInvoke KSecret])
      end
  end.
Proof.
  cbn [cs_value].
  destruct (live_value _ _ _) as [s|] eqn:Hs.
  - by apply cached_value_hit.
  - rewrite cached_value_miss by done. rewrite sign_eq. unfold signing.
    by destruct (jwt_encode _ _ _ _ _).
Qed.

Lemma at_cached_eq (now : Z) (tok : AccessToken) (cache : Shelf)
    (secret : SignedSecret) (w : World) :
  at_value now (CacheBacked (Direct tok) cache) secret w =
  match live_value decode_token now (shelf_dict w cache !! stage_key KToken) with
  | Some t => (Ok t, w, [])
  | None =>
      match token_of_reply now (next_reply w) with
      | Ok t =>
          (Ok t, store_entry (after_post w) cache (stage_key KToken) (token_entry t),
           [EvInvoke KToken])
      | Raise e => (Raise e, after_post w, [EvInvoke KToken])
      end
  end.
Proof.
  cbn [at_value].
  destruct (live_value _ _ _) as [t|] eqn:Ht.
  - by apply cached_value_hit.
  - rewrite cached_value_miss by done. rewrite exchange_eq.
    by destruct (token_of_reply _ _).
Qed.

Lemma rh_cached_eq (now : Z) (rh : RequestHeaders) (cache : Shelf)
    (t : AccessTokenValue) (w : World) :
  rh_value now (CacheBacked (Direct rh) cache) t w =
  match live_value decode_headers now (shelf_dict w cache !! stage_key KHeaders) with
  | Some h => (Ok h, w, [])
  | None =>
      (Ok (headers_of rh t),
       store_entry w cache (stage_key KHeaders) (headers_entry t (headers_of rh t)),
       [EvInvoke KHeaders])
  end.
Proof.
  cbn [rh_value].
  destruct (live_value _ _ _) as [h|] eqn:Hh.
  - by apply cached_value_hit.
  - rewrite cached_value_miss by done. by rewrite build_headers_eq.
Qed.

Lemma cs_direct_eq (now : Z) (cs : ClientSecret) (pk : string) (w : World) :
  cs_value now (Direct cs) pk w =
  (match signing cs pk with
   | Ok token => Ok (secret_of cs token)
   | Raise e => Raise e
   end, w, [EvInvoke KSecret]).
Proof. apply sign_eq. Qed.

Lemma at_direct_eq (now : Z) (tok : AccessToken) (secret : SignedSecret)
    (w : World) :
  at_value now (Direct tok) secret w =
  (token_of_reply now (next_reply w), after_post w, [EvInvoke KToken]).
Proof. apply exchange_eq. Qed.

Lemma rh_direct_eq (now : Z) (rh : RequestHeaders) (t : AccessTokenValue)
    (w : World) :
  rh_value now (Direct rh) t w = (Ok (headers_of rh t), w, [EvInvoke KHeaders]).
Proof. reflexivity. Qed.

(** Line 111, one [value] call after the other. *)
Lemma pipeline_value_eq (now : Z) (cs : Stage ClientSecret) (tok : Stage AccessToken)
    (rh : Stage RequestHeaders) (pk : string) (w : World) :
  pipeline_value now (cs, tok, rh) pk w =
  match cs_value now cs pk w with
  | (Ok s, w1, t1) =>
      match at_value now tok s w1 with
      | (Ok a, w2, t2) =>
          match rh_value now rh a w2 with
          | (r, w3, t3) => (r, w3, t1 ++ t2 ++ t3)
          end
      | (Raise e, w2, t2) => (Raise e, w2, t1 ++ t2)
      end
  | (Raise e, w1, t1) => (Raise e, w1, t1)
  end.
Proof.
  unfold pipeline_value, bind.
  destruct (cs_value now cs pk w) as [[[s|e] w1] t1]; [|done].
  destruct (at_value now tok s w1) as [[[a|e] w2] t2]; [|done].
  by destruct (rh_value now rh a w2) as [[r w3] t3].
Qed.

(** C1, as the code has it: when the shelf holds a live access token, the
    exchanger is not invoked and the transport is not used.  The signer is
    left alone only when the shelf holds a live client secret too; otherwise
    [cs.value] runs first and signs once, and a signing failure ends the
    evaluation.  The headers returned are the live cached headers when there
    are any, and otherwise the headers built from the cached token. *)
Theorem cached_token_skips_exchange (now : Z) (cs : ClientSecret)
    (tok : AccessToken) (rh : RequestHeaders) (cache : Shelf) (pk : string)
    (w : World) (t : AccessTokenValue) :
  live_value decode_token now (shelf_dict w cache !! stage_key KToken) = Some t ->
  let x := pipeline_value now
             (add_caching (Direct cs) (Direct tok) (Direct rh) cache) pk w in
  let headers :=
    default (headers_of rh t)
      (live_value decode_headers now (shelf_dict w cache !! stage_key KHeaders)) in
  calls KToken (trace_of x) = 0%nat /\
  w_net (world_of x) = w_net w /\
  match live_value decode_secret now (shelf_dict w cache !! stage_key KSecret) with
  | Some _ => calls KSecret (trace_of x) = 0%nat /\ result_of x = Ok headers
  | None =>
      calls KSecret (trace_of x) = 1%nat /\
      result_of x = match signing cs pk with
                    | Ok _ => Ok headers
                    | Raise e => Raise e
                    end
  end.
Proof.
  intros Ht x headers. subst x headers. unfold add_caching.
  rewrite pipeline_value_eq, cs_cached_eq.
  destruct (live_value decode_secret _ _) as [s|] eqn:Hs.
  - rewrite at_cached_eq, Ht, rh_cached_eq.
    by destruct (live_value decode_headers _ _).
  - destruct (signing cs pk) as [token|e]; [|done].
    rewrite at_cached_eq, lookup_put_other, Ht by done.
    rewrite rh_cached_eq, lookup_put_other by done.
    by destruct (live_value decode_headers _ _).
Qed.

(** C7: the secret signed at the instant [now] with the configured
    expiration duration [d] is issued at [now] and expires at [now + d].
    Once it is in the shelf, an evaluation before [now + d] returns it
    without signing, and an evaluation at or after [now + d] invokes the
    signer once and stores the fresh secret in its place. *)
Theorem signed_secret_window (now d : Z) (cfg : Authentication)
    (cs : ClientSecret) (tok : Stage AccessToken) (rh : Stage RequestHeaders)
    (pk token : string) (w : World) :
  set_up_authentication now cfg = (Direct cs, tok, rh) ->
  expiration_time cfg = d ->
  signing cs pk = Ok token ->
  let secret := secret_of cs token in
  cs_value now (Direct cs) pk w = (Ok secret, w, [EvInvoke KSecret]) /\
  ss_issued_at secret = now /\
  ss_expires_at secret = now + d /\
  forall (now' : Z) (cs' : ClientSecret) (cache : Shelf) (w' : World),
    shelf_dict w' cache !! stage_key KSecret = Some (secret_entry secret) ->
    let later := cs_value now' (CacheBacked (Direct cs') cache) pk w' in
    (now' < now + d -> later = (Ok secret, w', [])) /\
    (now + d <= now' ->
     calls KSecret (trace_of later) = 1%nat /\
     forall token',
       signing cs' pk = Ok token' ->
       result_of later = Ok (secret_of cs' token') /\
       shelf_dict (world_of later) cache !! stage_key KSecret
       = Some (secret_entry (secret_of cs' token'))).
Proof.
  intros Hset Hd Hsign secret. unfold set_up_authentication in Hset.
  injection Hset as <- _ _. simpl in Hd. subst d.
  split; [|split; [done|split; [done|]]].
  { by rewrite cs_direct_eq, Hsign. }
  intros now' cs' cache w' Hentry later. subst later.
  rewrite cs_cached_eq, Hentry. unfold live_value. simpl. split.
  - intros Hlt. by rewrite (proj2 (Z.ltb_lt _ _) Hlt).
  - intros Hge. rewrite (proj2 (Z.ltb_ge _ _) Hge).
    destruct (signing cs' pk) as [token'|e] eqn:Hs'; simpl; [|done].
    split; [done|]. intros ? [= <-]. split; [done|].
    unfold world_of. simpl. apply (lookup_put_same _ _ KSecret).
Qed.

Lemma token_of_bad_reply (now : Z) (r : Response) :
  success (status_code r) = false \/ parse_token_body (body r) = None ->
  token_of_reply now (Some r)
  = Raise (AuthExchangeError (Some (status_code r)) (body r)).
Proof.
  intros [Hs|Hp]; unfold token_of_reply.
  - by rewrite Hs.
  - rewrite Hp. by destruct (success _).
Qed.

(** C8, as the code has it: when the exchange is attempted and the reply is
    not a success or its body does not parse, the pipeline raises
    [AuthExchangeError] with the reply's status and body.  No access-token
    and no request-headers entry is written.  With a live cached secret the
    shelf is left exactly as it was; when the secret lookup had missed, the
    freshly signed secret was stored before the exchange and stays in the
    shelf.  Without caching nothing is stored at all. *)
Theorem failed_exchange_writes_no_token (now : Z) (cs : ClientSecret)
    (tok : AccessToken) (rh : RequestHeaders) (cache : Shelf) (pk : string)
    (w : World) (r : Response) :
  next_reply w = Some r ->
  success (status_code r) = false \/ parse_token_body (body r) = None ->
  live_value decode_token now (shelf_dict w cache !! stage_key KToken) = None ->
  let err := AuthExchangeError (Some (status_code r)) (body r) in
  let cached := pipeline_value now
                  (add_caching (Direct cs) (Direct tok) (Direct rh) cache) pk w in
  let plain := pipeline_value now (Direct cs, Direct tok, Direct rh) pk w in
  match live_value decode_secret now (shelf_dict w cache !! stage_key KSecret) with
  | Some _ =>
      result_of cached = Raise err /\ w_store (world_of cached) = w_store w
  | None =>
      forall token,
        signing cs pk = Ok token ->
        result_of cached = Raise err /\
        shelf_dict (world_of cached) cache
        = <[ stage_key KSecret := secret_entry (secret_of cs token) ]>
            (shelf_dict w cache)
  end /\
  (forall token,
     signing cs pk = Ok token ->
     result_of plain = Raise err /\ w_store (world_of plain) = w_store w).
Proof.
  intros Hr Hbad Hmiss err cached plain. subst cached plain err.
  pose proof (token_of_bad_reply now r Hbad) as Hreply.
  unfold add_caching. rewrite !pipeline_value_eq, cs_cached_eq. split.
  - destruct (live_value decode_secret _ _) as [s|] eqn:Hs.
    + rewrite at_cached_eq, Hmiss, Hr, Hreply. split; [done|].
      unfold world_of, after_post. simpl. by destruct (w_net w).
    + intros token ->.
      rewrite at_cached_eq, lookup_put_other, Hmiss by done.
      rewrite next_reply_store_entry, Hr, Hreply. split; [done|].
      unfold world_of. simpl. by rewrite shelf_dict_after_post, shelf_dict_put.
  - intros token Hsign. rewrite cs_direct_eq, Hsign, at_direct_eq, Hr, Hreply.
    split; [done|]. unfold world_of, after_post. simpl. by destruct (w_net w).
Qed.

(** ** What a computation emits *)

Lemma emits_ret {A} (P : Event -> Prop) (a : A) : emits P (ret a).
Proof. intros w. constructor. Qed.

Lemma emits_raise {A} (P : Event -> Prop) (e : Exn) : emits P (@raise A e).
Proof. intros w. constructor. Qed.

Lemma emits_lift {A} (P : Event -> Prop) (r : Result A) : emits P (lift r).
Proof. intros w. constructor. Qed.

Lemma emits_emit (P : Event -> Prop) (e : Event) : P e -> emits P (emit e).
Proof. intros He w. by repeat constructor. Qed.

Lemma emits_bind {A B} (P : Event -> Prop) (m : M A) (k : A -> M B) :
  emits P m -> (forall a, emits P (k a)) -> emits P (bind m k).
Proof.
  intros Hm Hk w. specialize (Hm w). unfold bind, trace_of in *.
  destruct (m w) as [[[a|e] w1] t1]; simpl in *; [|done].
  specialize (Hk a w1). unfold trace_of in Hk.
  destruct (k a w1) as [[r w2] t2]; simpl in *.
  by apply Forall_app.
Qed.

Lemma emits_for_each {A} (P : Event -> Prop) (body : A -> M unit) (xs : list A) :
  (forall x, emits P (body x)) -> emits P (for_each body xs).
Proof.
  intros Hb. induction xs as [|x xs IH]; simpl.
  - apply emits_ret.
  - apply emits_bind; [apply Hb|]. intros _. apply IH.
Qed.

Lemma emits_read_clock (P : Event -> Prop) :
  (forall t, P (EvClock t)) -> emits P read_clock.
Proof. intros Hc w. by repeat constructor. Qed.

Lemma emits_fetch (P : Event -> Prop) (api : string) (h : RequestHeadersValue)
    (args : list Val) (reply : Result (list Record_)) :
  P (EvFetch api h args) -> emits P (fetch api h args reply).
Proof.
  intros Hf. unfold fetch. apply emits_bind; [by apply emits_emit|].
  intros _. apply emits_lift.
Qed.

Ltac emits_step :=
  first
    [ apply emits_ret
    | apply emits_raise
    | apply emits_lift
    | apply emits_fetch; solve [auto]
    | apply emits_read_clock; solve [auto]
    | apply emits_emit; solve [auto]
    | apply emits_for_each; intros ?
    | apply emits_bind; [|intros ?]
    | match goal with
      | |- emits _ (if ?b then _ else _) => destruct b
      end ].

Lemma sync_concrete_stream_emits (P : Event -> Prop) (state : State)
    (name : string) (h : RequestHeadersValue) (additional : Additional) :
  (forall api args, P (EvFetch api h args)) ->
  (forall s r, P (EvWriteRecord s r)) ->
  (forall t, P (EvClock t)) ->
  emits P (sync_concrete_stream state name h additional).
Proof.
  intros Hf Hr Hc. unfold sync_concrete_stream, write_record.
  repeat emits_step.
Qed.

Lemma sync_stream_emits (P : Event -> Prop) (name : string) (stream : CatalogEntry)
    (state : State) (h : RequestHeadersValue) (additional : Additional) :
  (forall api args, P (EvFetch api h args)) ->
  (forall s r, P (EvWriteRecord s r)) ->
  (forall t, P (EvClock t)) ->
  (forall s k, P (EvWriteSchema s k)) ->
  (forall st, P (EvWriteState st)) ->
  emits P (sync_stream name stream state h additional).
Proof.
  intros Hf Hr Hc Hs Hst. unfold sync_stream.
  destruct (negb (selected stream)); [apply emits_ret|].
  apply emits_bind; [by apply emits_emit|]. intros _.
  apply emits_bind; [by apply sync_concrete_stream_emits|]. intros r.
  apply emits_bind; [by apply emits_emit|]. intros _. apply emits_ret.
Qed.

Lemma sync_streams_emits (h : RequestHeadersValue) (streams : list CatalogEntry)
    (state : State) (additional : Additional) :
  emits (fun e => stream_phase_event h e = true)
    (sync_streams streams state h additional).
Proof.
  revert state additional.
  induction streams as [|s rest IH]; intros state additional; simpl.
  - apply emits_ret.
  - apply emits_bind; [|intros r; apply IH].
    apply sync_stream_emits; try done.
    intros api args. simpl. by apply bool_decide_eq_true_2.
Qed.





(** ** The events of the authentication *)

Lemma cached_value_trace {I V} (k : StageKind) (enc : V -> CachedVal)
    (dec : CachedVal -> option V) (exp : I -> V -> Z) (inner : I -> M V)
    (cache : Shelf) (now : Z) (input : I) (w : World) (e : Event) :
  (forall w', trace_of (inner input w') = [] \/ trace_of (inner input w') = [e]) ->
  trace_of (cached_value k enc dec exp inner cache now input w) = [] \/
  trace_of (cached_value k enc dec exp inner cache now input w) = [e].
Proof.
  intros Hin.
  destruct (live_value dec now (shelf_dict w cache !! stage_key k)) as [v|] eqn:Hl.
  - left. by rewrite (cached_value_hit _ _ _ _ _ _ _ _ _ v Hl).
  - rewrite cached_value_miss by done. specialize (Hin w).
    by destruct (inner input w) as [[[v|x] w1] t].
Qed.

Lemma cs_value_trace (now : Z) (st : Stage ClientSecret) (pk : string) (w : World) :
  trace_of (cs_value now st pk w) = [] \/
  trace_of (cs_value now st pk w) = [EvInvoke KSecret].
Proof.
  revert w. induction st as [cs|inner IH cache]; intros w.
  - right. by rewrite cs_direct_eq.
  - cbn [cs_value]. by apply cached_value_trace.
Qed.

Lemma at_value_trace (now : Z) (st : Stage AccessToken) (s : SignedSecret)
    (w : World) :
  trace_of (at_value now st s w) = [] \/
  trace_of (at_value now st s w) = [EvInvoke KToken].
Proof.
  revert w. induction st as [tok|inner IH cache]; intros w.
  - right. by rewrite at_direct_eq.
  - cbn [at_value]. by apply cached_value_trace.
Qed.

Lemma rh_value_trace (now : Z) (st : Stage RequestHeaders) (t : AccessTokenValue)
    (w : World) :
  trace_of (rh_value now st t w) = [] \/
  trace_of (rh_value now st t w) = [EvInvoke KHeaders].
Proof.
  revert w. induction st as [rh|inner IH cache]; intros w.
  - by right.
  - cbn [rh_value]. by apply cached_value_trace.
Qed.

Lemma pipeline_value_events (now : Z) (objs : AuthObjects) (pk : string)
    (w : World) :
  pipeline_events (trace_of (pipeline_value now objs pk w)).
Proof.
  destruct objs as [[cs tok] rh]. rewrite pipeline_value_eq.
  pose proof (cs_value_trace now cs pk w) as Ha.
  destruct (cs_value now cs pk w) as [[[s|e] w1] t1]; simpl in Ha; cycle 1.
  { exists t1, [], []. rewrite !app_nil_r. auto. }
  pose proof (at_value_trace now tok s w1) as Hb.
  destruct (at_value now tok s w1) as [[[a|e] w2] t2]; simpl in Hb; cycle 1.
  { exists t1, t2, []. rewrite !app_nil_r. auto. }
  pose proof (rh_value_trace now rh a w2) as Hc.
  destruct (rh_value now rh a w2) as [[r w3] t3]; simpl in Hc.
  exists t1, t2, t3. auto.
Qed.

Lemma create_cache_setup (cache_dir cache_file : string) (w : World) :
  Forall (fun e => setup_event e = true)
    (trace_of (create_cache cache_dir cache_file w)).
Proof.
  unfold create_cache, bind, path_exists, shelve_open, raise, trace_of.
  destruct (bool_decide _); simpl; repeat constructor.
Qed.

Lemma get_or_create_cache_setup (cache_dir cache_file : string) (w : World) :
  Forall (fun e => setup_event e = true)
    (trace_of (get_or_create_cache cache_dir cache_file w)).
Proof.
  unfold get_or_create_cache.
  destruct (w_cache w) as [c|]; [|apply create_cache_setup].
  destruct (truthy w (Some c)); [constructor|apply create_cache_setup].
Qed.

Lemma load_private_key_setup (config : gmap string string) (w : World) :
  Forall (fun e => setup_event e = true) (trace_of (load_private_key config w)).
Proof.
  unfold load_private_key.
  destruct (config !! "private_key_value"); [constructor|].
  destruct (config !! "private_key_file") as [f|]; [|constructor].
  unfold read_private_key_from_file, bind, emit, trace_of.
  destruct (w_files w !! f); simpl; repeat constructor.
Qed.




Lemma setup_clock_reads (tr : list Event) :
  Forall (fun e => setup_event e = true) tr -> clock_reads tr = 0%nat.
Proof. induction 1 as [|e tr He _ IH]; [done|]. by destruct e. Qed.





(** ** The wrappers and the final headers *)

(** With no live entry for any of the three stages, the wrappers only add
    the cache writes. *)
Lemma pipeline_all_miss (now : Z) (cs : ClientSecret)
    (tok : AccessToken) (rh : RequestHeaders) (cache : Shelf) (pk : string)
    (w : World) :
  live_value decode_secret now (shelf_dict w cache !! stage_key KSecret) = None ->
  live_value decode_token now (shelf_dict w cache !! stage_key KToken) = None ->
  live_value decode_headers now (shelf_dict w cache !! stage_key KHeaders) = None ->
  trace_of (pipeline_value now
              (add_caching (Direct cs) (Direct tok) (Direct rh) cache) pk w)
  = trace_of (pipeline_value now (Direct cs, Direct tok, Direct rh) pk w).
Proof.
  intros Hs Ht Hh. unfold add_caching.
  rewrite !pipeline_value_eq, cs_cached_eq, Hs, cs_direct_eq.
  destruct (signing cs pk) as [token|e]; [|done].
  rewrite at_cached_eq, lookup_put_other, Ht by done.
  rewrite at_direct_eq, next_reply_store_entry.
  destruct (token_of_reply now (next_reply w)) as [t|e]; [|done].
  rewrite rh_cached_eq, lookup_put_other, shelf_dict_after_post by done.
  by rewrite lookup_put_other, Hh, rh_direct_eq by done.
Qed.

(** The pipeline without the wrappers, with a key that signs: it signs,
    exchanges, and builds the headers of the token the exchange gave. *)
Lemma plain_pipeline_eq (now : Z) (cs : ClientSecret) (tok : AccessToken)
    (rh : RequestHeaders) (pk token : string) (w : World) :
  signing cs pk = Ok token ->
  pipeline_value now (Direct cs, Direct tok, Direct rh) pk w =
  match token_of_reply now (next_reply w) with
  | Ok t =>
      (Ok (headers_of rh t), after_post w,
       [EvInvoke KSecret; EvInvoke KToken; EvInvoke KHeaders])
  | Raise e => (Raise e, after_post w, [EvInvoke KSecret; EvInvoke KToken])
  end.
Proof.
  intros Hsign. rewrite pipeline_value_eq, cs_direct_eq, Hsign, at_direct_eq.
  destruct (token_of_reply now (next_reply w)) as [t|e]; [|done].
  by rewrite rh_direct_eq.
Qed.

(** The pipeline with the wrappers, with a key that signs: the token in use
    is the live cached one, else the one the exchange gives; the headers are
    the live cached ones, else those built from the token in use.  The
    transport is used when the token lookup misses, and only then. *)
Lemma cached_pipeline_eq (now : Z) (cs : ClientSecret) (tok : AccessToken)
    (rh : RequestHeaders) (cache : Shelf) (pk token : string) (w : World) :
  signing cs pk = Ok token ->
  let x := pipeline_value now
             (add_caching (Direct cs) (Direct tok) (Direct rh) cache) pk w in
  let found_token :=
    live_value decode_token now (shelf_dict w cache !! stage_key KToken) in
  let found_headers :=
    live_value decode_headers now (shelf_dict w cache !! stage_key KHeaders) in
  result_of x =
    match (match found_token with
           | Some t => Ok t
           | None => token_of_reply now (next_reply w)
           end) with
    | Ok t => Ok (default (headers_of rh t) found_headers)
    | Raise e => Raise e
    end /\
  w_net (world_of x) = match found_token with
                       | Some _ => w_net w
                       | None => w_net (after_post w)
                       end.
Proof.
  intros Hsign. cbv zeta. unfold add_caching.
  rewrite pipeline_value_eq, cs_cached_eq, Hsign.
  destruct (live_value decode_secret now _) as [s|] eqn:Hs.
  - rewrite at_cached_eq.
    destruct (live_value decode_token now _) as [t|] eqn:Ht.
    + rewrite rh_cached_eq. by destruct (live_value decode_headers now _).
    + destruct (token_of_reply now (next_reply w)) as [t|e]; [|done].
      rewrite rh_cached_eq, lookup_put_other, shelf_dict_after_post by done.
      by destruct (live_value decode_headers now _).
  - rewrite at_cached_eq, lookup_put_other by done.
    destruct (live_value decode_token now _) as [t|] eqn:Ht.
    + rewrite rh_cached_eq, lookup_put_other by done.
      by destruct (live_value decode_headers now _).
    + rewrite next_reply_store_entry.
      destruct (token_of_reply now (next_reply w)) as [t|e]; cycle 1.
      { split; [done|]. unfold world_of, after_post. simpl. by destruct (w_net w). }
      rewrite rh_cached_eq, lookup_put_other, shelf_dict_after_post by done.
      rewrite lookup_put_other by done.
      destruct (live_value decode_headers now _); (split; [done|]);
        unfold world_of, after_post; simpl; by destruct (w_net w).
Qed.

Lemma pipeline_events_calls (k : StageKind) (tr : list Event) :
  pipeline_events tr -> (calls k tr <= 1)%nat.
Proof.
  intros (a & b & c & -> & Ha & Hb & Hc). rewrite !calls_app.
  destruct Ha as [->| ->], Hb as [->| ->], Hc as [->| ->], k; simpl; lia.
Qed.

(** The bearer string tells the headers of two tokens apart. *)
Lemma headers_of_inj (rh : RequestHeaders) (t t' : AccessTokenValue) :
  headers_of rh t' = headers_of rh t <-> atv_token t' = atv_token t.
Proof.
  unfold headers_of. split.
  - intros [= Heq]. exact Heq.
  - by intros ->.
Qed.

(** C5, as the code has it, for a private key that signs.  Without the
    wrappers the pipeline returns the headers built from the token the
    exchange gives now, or the exchange's error.  With the wrappers the
    token in use is the live cached one when there is one and else the one
    the exchange gives, and the headers returned are the live cached ones
    when there are any and else those built from the token in use.  So the
    two return the same whenever neither the token nor the headers are
    served from the shelf, whether the secret is or not, with the same use
    of the transport, and with the same stage invocations when the secret is
    not either.  When a cached token is served, with cached headers that are
    its own or none, the wrapped pipeline returns that token's headers, and
    the two agree exactly when the exchange would give a token with the same
    bearer string now.  The wrappers never add an invocation of the signer
    or of the exchanger. *)
Theorem caching_transparency (now : Z) (cs : ClientSecret)
    (tok : AccessToken) (rh : RequestHeaders) (cache : Shelf) (pk token : string)
    (w : World) :
  signing cs pk = Ok token ->
  let cached := pipeline_value now
                  (add_caching (Direct cs) (Direct tok) (Direct rh) cache) pk w in
  let plain := pipeline_value now (Direct cs, Direct tok, Direct rh) pk w in
  let found_secret :=
    live_value decode_secret now (shelf_dict w cache !! stage_key KSecret) in
  let found_token :=
    live_value decode_token now (shelf_dict w cache !! stage_key KToken) in
  let found_headers :=
    live_value decode_headers now (shelf_dict w cache !! stage_key KHeaders) in
  let exchanged := token_of_reply now (next_reply w) in
  result_of plain = match exchanged with
                    | Ok t => Ok (headers_of rh t)
                    | Raise e => Raise e
                    end /\
  result_of cached =
    match (match found_token with Some t => Ok t | None => exchanged end) with
    | Ok t => Ok (default (headers_of rh t) found_headers)
    | Raise e => Raise e
    end /\
  (found_token = None -> found_headers = None ->
   result_of cached = result_of plain /\
   w_net (world_of cached) = w_net (world_of plain) /\
   (found_secret = None -> trace_of cached = trace_of plain)) /\
  (forall t,
     found_token = Some t ->
     found_headers = None \/ found_headers = Some (headers_of rh t) ->
     result_of cached = Ok (headers_of rh t) /\
     w_net (world_of cached) = w_net w /\
     (result_of cached = result_of plain <->
      exists t', exchanged = Ok t' /\ atv_token t' = atv_token t)) /\
  (calls KSecret (trace_of cached) <= calls KSecret (trace_of plain))%nat /\
  (calls KToken (trace_of cached) <= calls KToken (trace_of plain))%nat.
Proof.
  intros Hsign cached plain found_secret found_token found_headers exchanged.
  pose proof (cached_pipeline_eq now cs tok rh cache pk token w Hsign)
    as [Hres Hnet].
  pose proof (plain_pipeline_eq now cs tok rh pk token w Hsign) as Hplain.
  cbv zeta in Hres, Hnet.
  fold cached found_token found_headers exchanged in Hres, Hnet.
  fold plain exchanged in Hplain.
  assert (result_of plain = match exchanged with
                            | Ok t => Ok (headers_of rh t)
                            | Raise e => Raise e
                            end) as Hpres.
  { rewrite Hplain. by destruct exchanged. }
  assert (w_net (world_of plain) = w_net (after_post w)) as Hpnet.
  { rewrite Hplain. by destruct exchanged. }
  assert (calls KSecret (trace_of plain) = 1%nat /\
          calls KToken (trace_of plain) = 1%nat) as [Hps Hpt].
  { rewrite Hplain. by destruct exchanged. }
  split; [exact Hpres|]. split; [exact Hres|]. split; [|split; [|split]].
  - intros Ht Hh. rewrite Ht, Hh in Hres. rewrite Ht in Hnet.
    split; [|split].
    + rewrite Hres, Hpres. by destruct exchanged.
    + by rewrite Hnet, Hpnet.
    + intros Hs. by apply pipeline_all_miss.
  - intros t Ht Hh. rewrite Ht in Hres, Hnet.
    assert (result_of cached = Ok (headers_of rh t)) as Hc.
    { rewrite Hres. by destruct Hh as [->| ->]. }
    split; [exact Hc|]. split; [exact Hnet|].
    rewrite Hc, Hpres. split.
    + destruct exchanged as [t'|e]; [|discriminate].
      intros Heq. exists t'. split; [done|].
      apply (headers_of_inj rh). congruence.
    + intros (t' & -> & Heq). f_equal. symmetry. by apply headers_of_inj.
  - rewrite Hps. apply pipeline_events_calls, pipeline_value_events.
  - rewrite Hpt. apply pipeline_events_calls, pipeline_value_events.
Qed.

(** ** [do_sync] in two phases *)


Lemma do_sync_split (config : gmap string string) (catalog : list CatalogEntry)
    (state : State) (w : World) :
  do_sync config catalog state w =
  match authenticate config w with
  | (Ok (cfg, h), w1, t1) =>
      match sync_streams catalog state h
              {| a_start_time := start_time cfg;
                 a_end_time := end_time cfg;
                 a_selector := selector cfg |} w1 with
      | (Ok _, w2, t2) => (Ok 0, w2, t1 ++ t2)
      | (Raise e, w2, t2) => (Raise e, w2, t1 ++ t2)
      end
  | (Raise e, w1, t1) => (Raise e, w1, t1)
  end.
Proof.
  unfold do_sync, authenticate, authenticate_at, bind, read_clock, lift.
  destruct (from_mapping config) as [cfg|e]; [|done].
  match goal with
  | |- context [match ?m ?w0 with _ => _ end] =>
      destruct (m w0) as [[[objs|e] w1] t1]
  end; [|done].
  destruct (load_private_key config w1) as [[[pk|e] w2] t2]; [|done].
  destruct (pipeline_value _ objs pk w2) as [[[h|e] w3] t3]; [|done].
  unfold ret. simpl.
  destruct (sync_streams _ _ _ _ w3) as [[[r|e] w4] t4]; simpl;
    by rewrite ?app_nil_r, <- ?app_assoc.
Qed.


(** ** The timestamp of the run *)

Lemma get_or_create_cache_clock (cache_dir cache_file : string) (w : World) :
  w_clock (world_of (get_or_create_cache cache_dir cache_file w)) = w_clock w /\
  w_reads (world_of (get_or_create_cache cache_dir cache_file w)) = w_reads w.
Proof.
  assert (w_clock (world_of (create_cache cache_dir cache_file w)) = w_clock w /\
          w_reads (world_of (create_cache cache_dir cache_file w)) = w_reads w)
    as Hcreate.
  { unfold create_cache, bind, path_exists, shelve_open, raise, world_of.
    by destruct (bool_decide _). }
  unfold get_or_create_cache.
  destruct (w_cache w) as [c|]; [|done]. by destruct (truthy w (Some c)).
Qed.

Lemma load_private_key_same_world (config : gmap string string) (w : World) :
  world_of (load_private_key config w) = w.
Proof.
  unfold load_private_key.
  destruct (config !! "private_key_value"); [done|].
  destruct (config !! "private_key_file") as [f|]; [|done].
  unfold read_private_key_from_file, bind, emit, world_of.
  by destruct (w_files w !! f).
Qed.

(** The model's [do_sync] is [do_sync_with] on the stage classes of the
    spec. *)
Lemma do_sync_spec_pipeline (config : gmap string string)
    (catalog : list CatalogEntry) (state : State) (w : World) :
  do_sync config catalog state w
  = do_sync_with spec_pipeline config catalog state w.
Proof.
  unfold do_sync, do_sync_with, spec_pipeline, bind, read_clock, lift.
  destruct (from_mapping config) as [cfg|e]; [|done].
  destruct (local_caching cfg); [|done].
  by destruct (get_or_create_cache _ _ _) as [[[c|e] w1] t1].
Qed.

(** C6, as the code has it.  [do_sync] reads the clock as its first step,
    and what it does until line 111 is not another reading: the
    configuration is parsed, the stage objects are built, the cache is set
    up and the private key loaded, with set-up events only.  Either the run
    ends there with an exception, whatever the stage classes are; or line
    111 is evaluated, whatever the stage classes do, on the stage objects
    [set_up_authentication] built from that one reading, wrapped by
    [add_caching] when local caching is on.  The model's [do_sync] is the
    case of the stage classes of the spec.  [set_up_authentication] hands
    the timestamp to the [ClientSecret] stage only: the [AccessToken] and
    [RequestHeaders] stages it builds are the same whatever the timestamp,
    and [add_caching] wraps the three with the cache alone. *)
Theorem timestamp_reaches_client_secret (config : gmap string string)
    (catalog : list CatalogEntry) (state : State) (w : World) :
  let t := w_clock w (w_reads w) in
  do_sync config catalog state w
  = do_sync_with spec_pipeline config catalog state w /\
  (exists pre w1,
     Forall (fun e => setup_event e = true) pre /\
     clock_reads (EvClock t :: pre) = 1%nat /\
     w_clock w1 = w_clock w /\
     w_reads w1 = S (w_reads w) /\
     ((exists e,
         forall evaluate,
           do_sync_with evaluate config catalog state w
           = (Raise e, w1, EvClock t :: pre)) \/
      (exists cfg objs pk,
         from_mapping config = Ok cfg /\
         (if local_caching cfg
          then exists cache,
                 objs = (let '(cs, tok, rh) := set_up_authentication t cfg in
                         add_caching cs tok rh cache)
          else objs = set_up_authentication t cfg) /\
         objects_timestamp objs = t /\
         forall evaluate,
           do_sync_with evaluate config catalog state w
           = after_events (EvClock t :: pre)
               (from_line_111 evaluate cfg objs pk catalog state w1)))) /\
  forall (timestamp : Z) (cfg : Authentication) (cache : Shelf),
    exists cs tok rh,
      set_up_authentication timestamp cfg = (Direct cs, Direct tok, Direct rh) /\
      cs_timestamp cs = timestamp /\
      (forall timestamp',
         exists cs',
           set_up_authentication timestamp' cfg = (Direct cs', Direct tok, Direct rh)) /\
      add_caching (Direct cs) (Direct tok) (Direct rh) cache =
        (CacheBacked (Direct cs) cache, CacheBacked (Direct tok) cache,
         CacheBacked (Direct rh) cache).
Proof.
  intros t. split; [apply do_sync_spec_pipeline|]. split; cycle 1.
  { intros timestamp cfg cache. unfold set_up_authentication.
    eexists _, _, _. split; [reflexivity|]. split; [done|].
    split; [|done]. intros timestamp'. by eexists. }
  assert (forall (evaluate : AuthObjects -> string -> M RequestHeadersValue)
            cfg objs pk w1 pre,
            after_events (EvClock t :: pre)
              (from_line_111 evaluate cfg objs pk catalog state w1)
            = match evaluate objs pk w1 with
              | (Ok h, w2, t2) =>
                  match sync_streams catalog state h
                          {| a_start_time := start_time cfg;
                             a_end_time := end_time cfg;
                             a_selector := selector cfg |} w2 with
                  | (Ok _, w3, t3) => (Ok 0, w3, EvClock t :: pre ++ t2 ++ t3)
                  | (Raise e, w3, t3) =>
                      (Raise e, w3, EvClock t :: pre ++ t2 ++ t3)
                  end
              | (Raise e, w2, t2) => (Raise e, w2, EvClock t :: pre ++ t2)
              end) as Hrest.
  { intros evaluate cfg objs pk w1 pre.
    unfold after_events, from_line_111, bind, ret.
    destruct (evaluate objs pk w1) as [[[h|e] w2] t2]; [|done].
    destruct (sync_streams _ _ _ _ w2) as [[[r|e] w3] t3]; simpl;
      by rewrite ?app_nil_r. }
  destruct (from_mapping config) as [cfg|e] eqn:Hcfg; cycle 1.
  { exists [], (with_reads w (S (w_reads w))). split; [constructor|].
    split; [done|]. split; [done|]. split; [done|]. left. exists e.
    intros evaluate. unfold do_sync_with, bind, read_clock, lift.
    by rewrite Hcfg. }
  destruct (local_caching cfg) eqn:Hlc.
  - pose proof (get_or_create_cache_setup (tmp_dir cfg) (auth_cache_file cfg)
                  (with_reads w (S (w_reads w)))) as Hsetup.
    pose proof (get_or_create_cache_clock (tmp_dir cfg) (auth_cache_file cfg)
                  (with_reads w (S (w_reads w)))) as [Hclock Hreads].
    unfold trace_of, world_of in Hsetup, Hclock, Hreads.
    destruct (get_or_create_cache _ _ _) as [[[c|e] w1] t1] eqn:Hopen;
      simpl in Hsetup, Hclock, Hreads; cycle 1.
    { exists t1, w1. split; [done|].
      split; [simpl; by rewrite setup_clock_reads|].
      split; [done|]. split; [done|]. left. exists e.
      intros evaluate. unfold do_sync_with, bind, read_clock, lift.
      rewrite Hcfg. cbv beta iota. rewrite Hlc, Hopen. simpl.
      by rewrite ?app_nil_r. }
    pose proof (load_private_key_setup config w1) as Hkey.
    pose proof (load_private_key_same_world config w1) as Hsame.
    unfold trace_of, world_of in Hkey, Hsame.
    destruct (load_private_key config w1) as [[[pk|e] w2] t2] eqn:Hload;
      simpl in Hkey, Hsame; subst w2.
    + exists (t1 ++ t2), w1. split; [by apply Forall_app|].
      split; [simpl; rewrite setup_clock_reads; [done|by apply Forall_app]|].
      split; [done|]. split; [done|]. right.
      exists cfg, (let '(cs, tok, rh) := set_up_authentication t cfg in
                   add_caching cs tok rh c), pk.
      split; [done|]. rewrite Hlc.
      split; [by exists c|]. split; [done|].
      intros evaluate. rewrite Hrest.
      unfold do_sync_with, bind, read_clock, lift.
      rewrite Hcfg. cbv beta iota. rewrite Hlc, Hopen. simpl. rewrite Hload.
      destruct (evaluate _ pk w1) as [[[h|e] w2] t2']; simpl;
        [|by rewrite ?app_nil_r, <- ?app_assoc].
      destruct (sync_streams _ _ _ _ w2) as [[[r|e] w3] t3]; simpl;
        by rewrite ?app_nil_r, <- ?app_assoc.
    + exists (t1 ++ t2), w1. split; [by apply Forall_app|].
      split; [simpl; rewrite setup_clock_reads; [done|by apply Forall_app]|].
      split; [done|]. split; [done|]. left. exists e.
      intros evaluate. unfold do_sync_with, bind, read_clock, lift.
      rewrite Hcfg. cbv beta iota. rewrite Hlc, Hopen. simpl. rewrite Hload.
      by rewrite ?app_nil_r.
  - pose proof (load_private_key_setup config (with_reads w (S (w_reads w))))
      as Hkey.
    pose proof (load_private_key_same_world config
                  (with_reads w (S (w_reads w)))) as Hsame.
    unfold trace_of, world_of in Hkey, Hsame.
    destruct (load_private_key config _) as [[[pk|e] w2] t2] eqn:Hload;
      simpl in Hkey, Hsame; subst w2.
    + exists t2, (with_reads w (S (w_reads w))). split; [done|].
      split; [simpl; by rewrite setup_clock_reads|].
      split; [done|]. split; [done|]. right.
      exists cfg, (set_up_authentication t cfg), pk.
      split; [done|]. rewrite Hlc.
      split; [done|]. split; [done|].
      intros evaluate. rewrite Hrest.
      unfold do_sync_with, bind, read_clock, lift, ret.
      rewrite Hcfg. cbv beta iota. rewrite Hlc. cbv beta iota. rewrite Hload.
      destruct (evaluate _ pk _) as [[[h|e] w2] t2']; simpl;
        [|by rewrite ?app_nil_r, <- ?app_assoc].
      destruct (sync_streams _ _ _ _ w2) as [[[r|e] w3] t3]; simpl;
        by rewrite ?app_nil_r, <- ?app_assoc.
    + exists t2, (with_reads w (S (w_reads w))). split; [done|].
      split; [simpl; by rewrite setup_clock_reads|].
      split; [done|]. split; [done|]. left. exists e.
      intros evaluate. unfold do_sync_with, bind, read_clock, lift, ret.
      rewrite Hcfg. cbv beta iota. rewrite Hlc. cbv beta iota. rewrite Hload.
      by rewrite ?app_nil_r.
Qed.

End Properties.

(** * The properties on concrete runs *)

(** ** The module-level handle *)

(** C10, on the code: the first call on a fresh directory opens an empty
    shelf and binds it to the module-level [cache]; while the shelf is still
    empty the handle is falsy, so a second call does not hand it back: with
    another, missing directory it raises [OSError], and with the same
    arguments it opens a second shelf object. *)
Theorem get_or_create_cache_reopens_empty_shelf :
  let first := get_or_create_cache (env := demo) "/tmp" "auth" fresh_world in
  let w1 := world_of first in
  result_of first = Ok {| shelf_id := 0; shelf_path := "/tmp/auth" |} /\
  w_cache w1 = Some {| shelf_id := 0; shelf_path := "/tmp/auth" |} /\
  get_or_create_cache (env := demo) "/nowhere" "other" w1 =
    (Raise (OSError "Cache directory [/nowhere] does not exist"), w1,
     [EvExists "/nowhere"]) /\
  result_of (get_or_create_cache (env := demo) "/tmp" "auth" w1) =
    Ok {| shelf_id := 1; shelf_path := "/tmp/auth" |} /\
  trace_of (get_or_create_cache (env := demo) "/tmp" "auth" w1) =
    [EvExists "/tmp"; EvShelveOpen "/tmp/auth"].
Proof. vm_compute. repeat split; reflexivity. Qed.

(** C1, as stated, fails: at the instant 3000 the shelf holds a live
    access token (it expires at 4600) but the cached secret expired at 2200,
    and the evaluation invokes the signer. *)
Lemma cached_token_still_signs :
  live_value decode_token 3000
    (shelf_dict after_first_run demo_shelf !! stage_key KToken)
  = Some {| atv_token := "old"; atv_expires_at := 4600 |} /\
  calls KSecret
    (trace_of (pipeline_value (env := demo) 3000 (demo_cached 3000) "KEY"
                 after_first_run)) = 1%nat /\
  ~ (calls KSecret
       (trace_of (pipeline_value (env := demo) 3000 (demo_cached 3000) "KEY"
                    after_first_run)) = 0%nat /\
     calls KToken
       (trace_of (pipeline_value (env := demo) 3000 (demo_cached 3000) "KEY"
                    after_first_run)) = 0%nat).
Proof.
  split; [by vm_compute|]. split; [by vm_compute|].
  intros [Hs _]. vm_compute in Hs. discriminate.
Qed.

Lemma cached_token_skips_exchange_witness :
  let x := pipeline_value (env := demo) 3000 (demo_cached 3000) "KEY"
             after_first_run in
  calls KToken (trace_of x) = 0%nat /\
  w_net (world_of x) = w_net after_first_run /\
  calls KSecret (trace_of x) = 1%nat /\
  result_of x = Ok {| rhv_org_id := "org1"; rhv_authorization := "Bearer old" |}.
Proof.
  pose proof (cached_token_skips_exchange (env := demo) 3000
                {| cs_timestamp := 3000; cs_expiration_time := 1200;
                   cs_headers := {| h_key_id := "k1"; h_algorithm := "ES256" |};
                   cs_payload := {| p_client_id := "c1"; p_team_id := "t1";
                                    p_audience := "a1" |} |}
                {| at_client_id := "c1"; at_url := "https://appleid.example/token" |}
                {| rh_org_id := "org1" |}
                demo_shelf "KEY" after_first_run
                {| atv_token := "old"; atv_expires_at := 4600 |}
                ltac:(vm_compute; reflexivity)) as Hthm.
  vm_compute in Hthm. vm_compute. exact Hthm.
Defined.

Lemma missing_cache_directory_aborts_witness :
  get_or_create_cache (env := demo) "/nowhere" "auth" fresh_world =
    (Raise (OSError "Cache directory [/nowhere] does not exist"), fresh_world,
     [EvExists "/nowhere"]) /\
  do_sync (env := demo) demo_config [] ∅ fresh_world =
    (Raise (OSError "Cache directory [/nowhere] does not exist"),
     with_reads fresh_world 1, [EvClock 1000; EvExists "/nowhere"]).
Proof.
  pose proof (missing_cache_directory_aborts (env := demo) demo_config
                {| client_id := "c1"; team_id := "t1"; key_id := "k1";
                   org_id := "org1"; audience := "a1"; algorithm := "ES256";
                   url := "https://appleid.example/token";
                   expiration_time := 1200; local_caching := true;
                   tmp_dir := "/nowhere"; auth_cache_file := "auth";
                   start_time := VNone; end_time := VNone; selector := VNone |}
                [] ∅ fresh_world
                ltac:(vm_compute; reflexivity)
                ltac:(reflexivity)
                ltac:(apply (proj1 (bool_decide_eq_false _)); vm_compute; reflexivity)
                ltac:(reflexivity)) as Hthm.
  exact Hthm.
Defined.

Lemma load_private_key_sources_witness :
  load_private_key inline_key_config fresh_world = (Ok "KEY", fresh_world, []) /\
  load_private_key file_key_config fresh_world =
    (Raise (OSError "No such file or directory: /key.p8"), fresh_world,
     [EvReadKeyFile "/key.p8"]) /\
  load_private_key no_key_config fresh_world =
    (Raise (TapAppleSearchAdsException "Missing private key configuration parameters"),
     fresh_world, []) /\
  is_ok (result_of (do_sync (env := demo) no_key_config [] ∅ fresh_world)) = false.
Proof.
  split; [|split; [|split]].
  - exact (proj1 (load_private_key_sources (env := demo) inline_key_config
                    fresh_world) "KEY" ltac:(vm_compute; reflexivity)).
  - exact (proj1 (proj2 (load_private_key_sources (env := demo) file_key_config
                           fresh_world))
             "/key.p8" ltac:(vm_compute; reflexivity) ltac:(vm_compute; reflexivity)).
  - exact (proj1 (proj2 (proj2 (load_private_key_sources (env := demo)
                                  no_key_config fresh_world))
                    ltac:(vm_compute; reflexivity) ltac:(vm_compute; reflexivity))).
  - exact (proj1 (proj2 (proj2 (proj2 (load_private_key_sources (env := demo)
                                         no_key_config fresh_world))
                           ltac:(vm_compute; reflexivity)
                           ltac:(vm_compute; reflexivity)) [] ∅)).
Defined.

(** C5, as stated, fails: with the shelf a first evaluation left, a second
    evaluation at the instant 2000, when every cached entry is still live,
    returns the cached headers, while the pipeline without the wrappers
    signs and exchanges again and returns the headers of the new token. *)
Lemma caching_changes_headers :
  result_of (pipeline_value (env := demo) 2000 (demo_cached 2000) "KEY"
               after_first_run)
  = Ok {| rhv_org_id := "org1"; rhv_authorization := "Bearer old" |} /\
  result_of (pipeline_value (env := demo) 2000 (demo_objects 2000) "KEY"
               after_first_run)
  = Ok {| rhv_org_id := "org1"; rhv_authorization := "Bearer new" |} /\
  result_of (pipeline_value (env := demo) 2000 (demo_cached 2000) "KEY"
               after_first_run)
  <> result_of (pipeline_value (env := demo) 2000 (demo_objects 2000) "KEY"
                  after_first_run).
Proof.
  split; [by vm_compute|]. split; [by vm_compute|].
  vm_compute. discriminate.
Qed.

Lemma caching_transparency_witness :
  let hit := pipeline_value (env := demo) 2000 (demo_cached 2000) "KEY"
               after_first_run in
  let replayed := pipeline_value (env := demo) 2000 (demo_objects 2000) "KEY"
                    after_first_run in
  let retried := pipeline_value (env := demo) 1500 (demo_cached 1500) "KEY"
                   retry_world in
  let plain := pipeline_value (env := demo) 1500 (demo_objects 1500) "KEY"
                 retry_world in
  result_of hit = Ok {| rhv_org_id := "org1"; rhv_authorization := "Bearer old" |} /\
  w_net (world_of hit) = w_net after_first_run /\
  result_of hit <> result_of replayed /\
  live_value decode_secret 1500
    (shelf_dict retry_world demo_shelf !! stage_key KSecret)
  = Some {| ss_token := "jwt.c1.KEY"; ss_issued_at := 1000; ss_expires_at := 2200 |} /\
  result_of retried = result_of plain /\
  w_net (world_of retried) = w_net (world_of plain).
Proof.
  assert (signing (env := demo) (demo_cs 2000) "KEY" = Ok "jwt.c1.KEY") as Hsign
    by (vm_compute; reflexivity).
  assert (signing (env := demo) (demo_cs 1500) "KEY" = Ok "jwt.c1.KEY") as Hsign'
    by (vm_compute; reflexivity).
  pose proof (caching_transparency (env := demo) 2000 (demo_cs 2000) demo_tok
                demo_rh demo_shelf "KEY" "jwt.c1.KEY" after_first_run Hsign)
    as (_ & _ & _ & Hhit & _).
  destruct (Hhit {| atv_token := "old"; atv_expires_at := 4600 |}
              ltac:(vm_compute; reflexivity)
              ltac:(right; vm_compute; reflexivity))
    as (Hres & Hnet & Hiff).
  pose proof (caching_transparency (env := demo) 1500 (demo_cs 1500) demo_tok
                demo_rh demo_shelf "KEY" "jwt.c1.KEY" retry_world Hsign')
    as (_ & _ & Hmiss & _).
  destruct (Hmiss ltac:(vm_compute; reflexivity) ltac:(vm_compute; reflexivity))
    as (Hsame & Hsame_net & _).
  split; [exact Hres|]. split; [exact Hnet|]. split.
  { intros Heq. apply Hiff in Heq as (t' & Hex & Htok).
    vm_compute in Hex. injection Hex as <-. vm_compute in Htok. discriminate. }
  split; [vm_compute; reflexivity|]. split; [exact Hsame|exact Hsame_net].
Defined.

(** C6, as stated, fails: the [AccessToken] and [RequestHeaders] stages
    built for the instants 1000 and 2000 are the same objects, so the
    timestamp of the run is not in them; only the [ClientSecret] stages
    differ. *)
Lemma token_stage_ignores_timestamp :
  (set_up_authentication 1000 demo_config_).1.2
  = (set_up_authentication 2000 demo_config_).1.2 /\
  (set_up_authentication 1000 demo_config_).2
  = (set_up_authentication 2000 demo_config_).2 /\
  (set_up_authentication 1000 demo_config_).1.1
  <> (set_up_authentication 2000 demo_config_).1.1.
Proof. split; [done|]. split; [done|]. simpl. intros [=]. Qed.

Lemma signed_secret_window_witness :
  let secret := {| ss_token := "jwt.c1.KEY"; ss_issued_at := 1000;
                   ss_expires_at := 2200 |} in
  cs_value (env := demo) 1000 (demo_objects 1000).1.1 "KEY" fresh_world
  = (Ok secret, fresh_world, [EvInvoke KSecret]) /\
  ss_issued_at secret = 1000 /\
  ss_expires_at secret = 1000 + 1200.
Proof.
  pose proof (signed_secret_window (env := demo) 1000 1200 demo_config_ _ _ _
                "KEY" "jwt.c1.KEY" fresh_world
                ltac:(reflexivity) ltac:(reflexivity)
                ltac:(vm_compute; reflexivity)) as (H1 & H2 & H3 & _).
  exact (conj H1 (conj H2 H3)).
Defined.

(** C8, as stated, fails: on an empty shelf the secret is signed and stored
    before the exchange is refused with 401, so the failed run has written a
    cache entry. *)
Lemma failed_exchange_stores_secret :
  result_of (pipeline_value (env := demo) 1000 (demo_cached 1000) "KEY"
               refusing_world)
  = Raise (AuthExchangeError (Some 401) "unauthorized") /\
  shelf_dict refusing_world demo_shelf !! stage_key KSecret = None /\
  shelf_dict
    (world_of (pipeline_value (env := demo) 1000 (demo_cached 1000) "KEY"
                 refusing_world)) demo_shelf !! stage_key KSecret
  = Some (secret_entry {| ss_token := "jwt.c1.KEY"; ss_issued_at := 1000;
                          ss_expires_at := 2200 |}) /\
  w_store (world_of (pipeline_value (env := demo) 1000 (demo_cached 1000) "KEY"
                       refusing_world))
  <> w_store refusing_world.
Proof.
  split; [by vm_compute|]. split; [by vm_compute|]. split; [by vm_compute|].
  intros Heq.
  assert (shelf_dict
            (world_of (pipeline_value (env := demo) 1000 (demo_cached 1000) "KEY"
                         refusing_world)) demo_shelf !! stage_key KSecret
          = shelf_dict refusing_world demo_shelf !! stage_key KSecret) as Hsame.
  { unfold shelf_dict. by rewrite Heq. }
  vm_compute in Hsame. discriminate.
Qed.

Lemma failed_exchange_writes_no_token_witness :
  result_of (pipeline_value (env := demo) 1000 (demo_cached 1000) "KEY"
               refusing_world)
  = Raise (AuthExchangeError (Some 401) "unauthorized") /\
  shelf_dict
    (world_of (pipeline_value (env := demo) 1000 (demo_cached 1000) "KEY"
                 refusing_world)) demo_shelf !! stage_key KToken
  = None.
Proof.
  pose proof (failed_exchange_writes_no_token (env := demo) 1000
                {| cs_timestamp := 1000; cs_expiration_time := 1200;
                   cs_headers := {| h_key_id := "k1"; h_algorithm := "ES256" |};
                   cs_payload := {| p_client_id := "c1"; p_team_id := "t1";
                                    p_audience := "a1" |} |}
                {| at_client_id := "c1"; at_url := "https://appleid.example/token" |}
                {| rh_org_id := "org1" |}
                demo_shelf "KEY" refusing_world
                {| status_code := 401; body := "unauthorized" |}
                ltac:(reflexivity)
                ltac:(left; vm_compute; reflexivity)
                ltac:(vm_compute; reflexivity)) as [Hcached _].
  cbv zeta in Hcached. 
  change (live_value decode_secret 1000
            (shelf_dict refusing_world demo_shelf !! stage_key KSecret))
    with (@None SignedSecret) in Hcached.
  destruct (Hcached "jwt.c1.KEY" ltac:(vm_compute; reflexivity)) as [Hres Hdict].
  split; [exact Hres|].
  change (demo_cached 1000) with
    (add_caching
       (Direct {| cs_timestamp := 1000; cs_expiration_time := 1200;
                  cs_headers := {| h_key_id := "k1"; h_algorithm := "ES256" |};
                  cs_payload := {| p_client_id := "c1"; p_team_id := "t1";
                                   p_audience := "a1" |} |})
       (Direct {| at_client_id := "c1"; at_url := "https://appleid.example/token" |})
       (Direct {| rh_org_id := "org1" |}) demo_shelf).
  rewrite Hdict. vm_compute. reflexivity.
Defined.

Lemma unknown_stream_raises_witness :
  sync_concrete_stream (env := demo) ∅ "keywords"
    {| rhv_org_id := "org1"; rhv_authorization := "Bearer abc" |}
    {| a_start_time := VNone; a_end_time := VNone; a_selector := VNone |}
    fresh_world
  = (Raise (TapAppleSearchAdsException "Unknown stream: [keywords]"),
     fresh_world, []).
Proof.
  exact (proj1 (unknown_stream_raises (env := demo) ∅ "keywords"
                  {| rhv_org_id := "org1"; rhv_authorization := "Bearer abc" |}
                  {| a_start_time := VNone; a_end_time := VNone;
                     a_selector := VNone |}
                  fresh_world)
           ltac:(apply (proj1 (bool_decide_eq_false _)); vm_compute; reflexivity)).
Defined.

(** * More of the code: the stream loop, the streams, the cache handle,
      discovery *)

Section Streams.

Context {env : Collaborators}.

(** ** The loop over the catalog *)

Lemma sync_streams_selected_entries (streams : list CatalogEntry)
    (state : State) (h : RequestHeadersValue) (additional : Additional)
    (w : World) :
  sync_streams streams state h additional w
  = sync_streams (selected_entries streams) state h additional w.
Proof.
  revert state additional w.
  induction streams as [|s rest IH]; intros state additional w; [done|].
  simpl. destruct (selected s) eqn:Hs.
  - simpl. unfold bind.
    destruct (sync_stream _ s state h additional w) as [[[r|e] w1] t1]; [|done].
    by rewrite IH.
  - unfold bind, sync_stream. rewrite Hs. simpl. rewrite IH.
    by destruct (sync_streams _ state h additional w) as [[r w2] t2].
Qed.

(** X1: entries that are not selected do not count: the loop over a catalog
    does what the loop over its selected entries does, with the same result,
    the same world and the same output.  An unselected entry is skipped
    whatever its name, known or not. *)
Theorem unselected_streams_are_skipped (streams : list CatalogEntry)
    (state : State) (h : RequestHeadersValue) (additional : Additional)
    (w : World) :
  sync_streams streams state h additional w
  = sync_streams (selected_entries streams) state h additional w.
Proof. apply sync_streams_selected_entries. Qed.

(** X2: a selected entry whose name is not one of [STREAMS] stops the
    loop: its schema message is written, then [TapAppleSearchAdsException]
    is raised; no state message follows and the entries after it are never
    reached. *)
Theorem selected_unknown_stream_stops_the_loop (s : CatalogEntry)
    (rest : list CatalogEntry) (state : State) (h : RequestHeadersValue)
    (additional : Additional) (w : World) :
  selected s = true ->
  tap_stream_id s ∉ STREAMS ->
  sync_streams (s :: rest) state h additional w =
  (Raise (TapAppleSearchAdsException
            ("Unknown stream: [" +:+ tap_stream_id s +:+ "]")),
   w, [EvWriteSchema (tap_stream_id s) (key_properties s)]).
Proof.
  intros Hs Hn. simpl. unfold bind, sync_stream. rewrite Hs. simpl.
  unfold bind, emit. by rewrite sync_concrete_stream_unknown.
Qed.

Lemma last_state_app (a b : list Event) :
  last_state (a ++ b)
  = match last_state b with
    | Some st => Some st
    | None => last_state a
    end.
Proof.
  induction a as [|e a IH]; simpl; [by destruct (last_state b)|].
  destruct e; try done. rewrite IH. by destruct (last_state b).
Qed.

Lemma sync_stream_last_state (name : string) (s : CatalogEntry) (state : State)
    (h : RequestHeadersValue) (additional : Additional) (w : World)
    (r : State * Additional) :
  selected s = true ->
  result_of (sync_stream name s state h additional w) = Ok r ->
  last_state (trace_of (sync_stream name s state h additional w)) = Some r.1.
Proof.
  intros Hs. unfold sync_stream. rewrite Hs. simpl.
  unfold bind, emit, ret, result_of, trace_of in *.
  destruct (sync_concrete_stream state name h additional w) as [[[r1|e] w1] t1];
    simpl in *; [|done].
  intros [= <-]. by rewrite last_state_app.
Qed.

Lemma sync_streams_nothing_selected (streams : list CatalogEntry) (state : State)
    (h : RequestHeadersValue) (additional : Additional) (w : World) :
  selected_names streams = [] ->
  sync_streams streams state h additional w = (Ok (state, additional), w, []).
Proof.
  intros Hn. rewrite sync_streams_selected_entries.
  assert (selected_entries streams = []) as ->; [|done].
  induction streams as [|s rest IH]; [done|]. simpl in *.
  destruct (selected s); [done|]. by apply IH.
Qed.

(** X3: a loop that returns has written the state it returns as its last
    state message, provided some entry was selected; with nothing selected
    it writes no state message at all and returns what it was given. *)
Theorem final_state_is_written_last (streams : list CatalogEntry)
    (state : State) (h : RequestHeadersValue) (additional : Additional)
    (w : World) (r : State * Additional) :
  result_of (sync_streams streams state h additional w) = Ok r ->
  match selected_names streams with
  | [] =>
      last_state (trace_of (sync_streams streams state h additional w)) = None /\
      r = (state, additional)
  | _ :: _ =>
      last_state (trace_of (sync_streams streams state h additional w)) = Some r.1
  end.
Proof.
  revert state additional w.
  induction streams as [|s rest IH]; intros state additional w.
  { simpl. unfold result_of, ret. simpl. by intros [= <-]. }
  destruct (selected s) eqn:Hs; cycle 1.
  { rewrite sync_streams_selected_entries. simpl. rewrite Hs.
    rewrite <- sync_streams_selected_entries. apply IH. }
  simpl. rewrite Hs.
  pose proof (sync_stream_last_state (tap_stream_id s) s state h additional w)
    as Hlast.
  unfold bind, result_of, trace_of in *.
  destruct (sync_stream _ s state h additional w) as [[[r1|e] w1] t1];
    simpl in *; [|done].
  specialize (Hlast r1 Hs eq_refl). specialize (IH r1.1 r1.2 w1).
  destruct (sync_streams rest r1.1 h r1.2 w1) as [[r2 w2] t2]; simpl in *.
  intros ->. specialize (IH eq_refl). rewrite last_state_app.
  destruct (selected_names rest).
  - destruct IH as [-> ->]. by rewrite Hlast.
  - by rewrite IH.
Qed.

(** ** The streams that write what they fetch *)

Lemma bind_ok_eq {A B} (m : M A) (k : A -> M B) (w w1 : World) (a : A)
    (t1 : list Event) :
  m w = (Ok a, w1, t1) ->
  bind m k w = match k a w1 with
               | (r, w2, t2) => (r, w2, t1 ++ t2)
               end.
Proof. intros Hm. unfold bind. by rewrite Hm. Qed.

Lemma bind_raise_eq {A B} (m : M A) (k : A -> M B) (w w1 : World) (e : Exn)
    (t1 : list Event) :
  m w = (Raise e, w1, t1) -> bind m k w = (Raise e, w1, t1).
Proof. intros Hm. unfold bind. by rewrite Hm. Qed.

Lemma for_each_write (name : string) (records : list Record_) (w : World) :
  for_each (fun record => write_record name record) records w
  = (Ok tt, w, map (EvWriteRecord name) records).
Proof.
  revert w. induction records as [|r rest IH]; intros w; [done|].
  cbn [for_each]. unfold bind, write_record, emit. by rewrite IH.
Qed.

Lemma for_each_convert (name : string) (conv : Record_ -> Result Record_)
    (good good' : list Record_) (w : World) :
  Forall2 (fun r r' => conv r = Ok r') good good' ->
  (for_each (fun record => record' <- lift (conv record) ;;
                           write_record name record') good w
   = (Ok tt, w, map (EvWriteRecord name) good')) /\
  (forall bad rest e,
     conv bad = Raise e ->
     for_each (fun record => record' <- lift (conv record) ;;
                             write_record name record') (good ++ bad :: rest) w
     = (Raise e, w, map (EvWriteRecord name) good')).
Proof.
  intros Hgood. revert w.
  induction Hgood as [|r r' good good' Hr _ IH]; intros w.
  - split; [done|]. intros bad rest e Hbad. cbn [for_each app].
    apply bind_raise_eq. unfold bind, lift. by rewrite Hbad.
  - destruct (IH w) as [IH1 IH2].
    assert ((record' <- lift (conv r) ;; write_record name record') w
            = (Ok tt, w, [EvWriteRecord name r'])) as Hstep.
    { unfold bind, lift. by rewrite Hr. }
    split.
    + cbn [for_each]. rewrite (bind_ok_eq _ _ _ _ _ _ Hstep). by rewrite IH1.
    + intros bad rest e Hbad. cbn [for_each app].
      rewrite (bind_ok_eq _ _ _ _ _ _ Hstep). by rewrite (IH2 bad rest e Hbad).
Qed.

Lemma fetch_eq (api : string) (h : RequestHeadersValue) (args : list Val)
    (reply : Result (list Record_)) (w : World) :
  fetch api h args reply w = (reply, w, [EvFetch api h args]).
Proof. unfold fetch, bind, emit, lift. by destruct reply. Qed.

(** The branches of [sync_concrete_stream], one per known name. *)
Lemma campaign_branch (state : State) (h : RequestHeadersValue)
    (additional : Additional) :
  sync_concrete_stream state "campaign" h additional
  = (campaing_records <- fetch "campaign.sync" h [] (campaign_sync h) ;;
     for_each (fun record => write_record "campaign" record) campaing_records ;;;
     ret (state, additional)).
Proof. reflexivity. Qed.

Lemma campaign_flat_branch (state : State) (h : RequestHeadersValue)
    (additional : Additional) :
  sync_concrete_stream state "campaign_flat" h additional
  = (campaing_records <- fetch "campaign.sync" h [] (campaign_sync h) ;;
     for_each (fun record =>
                 record' <- lift (campaign_to_schema record) ;;
                 write_record "campaign_flat" record') campaing_records ;;;
     ret (state, additional)).
Proof. reflexivity. Qed.

Lemma reports_branch (state : State) (h : RequestHeadersValue)
    (additional : Additional) :
  sync_concrete_stream state "campaign_level_reports" h additional
  = (reports_records <-
       fetch "campaign_level_reports.sync" h
         [a_start_time additional; a_end_time additional; a_selector additional]
         (campaign_level_reports_sync h (a_start_time additional)
            (a_end_time additional) (a_selector additional)) ;;
     for_each (fun record => write_record "campaign_level_reports" record)
       reports_records ;;;
     ret (state, additional)).
Proof. reflexivity. Qed.

Lemma spend_row_branch (state : State) (h : RequestHeadersValue)
    (additional : Additional) :
  sync_concrete_stream state "campaign_level_reports_extended_spend_row" h
    additional
  = (reports_records <-
       fetch "campaign_level_reports.sync_extended_spend_row" h
         [a_start_time additional; a_end_time additional; a_selector additional]
         (campaign_level_reports_sync_extended_spend_row h
            (a_start_time additional) (a_end_time additional)
            (a_selector additional)) ;;
     for_each (fun record =>
                 write_record "campaign_level_reports_extended_spend_row" record)
       reports_records ;;;
     ret (state, additional)).
Proof. reflexivity. Qed.

Lemma spend_row_flat_branch (state : State) (h : RequestHeadersValue)
    (additional : Additional) :
  sync_concrete_stream state "campaign_level_reports_extended_spend_row_flat" h
    additional
  = (reports_records <-
       fetch "campaign_level_reports.sync_extended_spend_row" h
         [a_start_time additional; a_end_time additional; a_selector additional]
         (campaign_level_reports_sync_extended_spend_row h
            (a_start_time additional) (a_end_time additional)
            (a_selector additional)) ;;
     for_each (fun record =>
                 record' <- lift (campaign_level_reports_flatten record) ;;
                 write_record "campaign_level_reports_extended_spend_row_flat"
                   record') reports_records ;;;
     ret (state, additional)).
Proof. reflexivity. Qed.

Lemma raw_loop_eq (name api : string) (h : RequestHeadersValue) (args : list Val)
    (reply : Result (list Record_)) (x : State * Additional) (w : World) :
  (records <- fetch api h args reply ;;
   for_each (fun record => write_record name record) records ;;;
   ret x) w
  = match reply with
    | Ok records => (Ok x, w, EvFetch api h args :: map (EvWriteRecord name) records)
    | Raise e => (Raise e, w, [EvFetch api h args])
    end.
Proof.
  destruct reply as [records|e].
  - rewrite (bind_ok_eq _ _ _ _ _ _ (fetch_eq api h args (Ok records) w)).
    rewrite (bind_ok_eq _ _ _ _ _ _ (for_each_write name records w)).
    simpl. by rewrite app_nil_r.
  - by rewrite (bind_raise_eq _ _ _ _ _ _ (fetch_eq api h args (Raise e) w)).
Qed.

(** X4: the three streams that pass records on as they are ([campaign],
    [campaign_level_reports], [campaign_level_reports_extended_spend_row])
    make one request with the run's headers and write one record per
    fetched record, in the order fetched; the state is returned as given.
    When the request fails its exception is raised and no record is
    written. *)
Theorem raw_streams_write_what_they_fetch (state : State)
    (h : RequestHeadersValue) (additional : Additional) (w : World) :
  let args := [a_start_time additional; a_end_time additional;
               a_selector additional] in
  sync_concrete_stream state "campaign" h additional w
  = match campaign_sync h with
    | Ok records =>
        (Ok (state, additional), w,
         EvFetch "campaign.sync" h [] :: map (EvWriteRecord "campaign") records)
    | Raise e => (Raise e, w, [EvFetch "campaign.sync" h []])
    end /\
  sync_concrete_stream state "campaign_level_reports" h additional w
  = match campaign_level_reports_sync h (a_start_time additional)
            (a_end_time additional) (a_selector additional) with
    | Ok records =>
        (Ok (state, additional), w,
         EvFetch "campaign_level_reports.sync" h args
           :: map (EvWriteRecord "campaign_level_reports") records)
    | Raise e => (Raise e, w, [EvFetch "campaign_level_reports.sync" h args])
    end /\
  sync_concrete_stream state "campaign_level_reports_extended_spend_row" h
    additional w
  = match campaign_level_reports_sync_extended_spend_row h
            (a_start_time additional) (a_end_time additional)
            (a_selector additional) with
    | Ok records =>
        (Ok (state, additional), w,
         EvFetch "campaign_level_reports.sync_extended_spend_row" h args
           :: map (EvWriteRecord "campaign_level_reports_extended_spend_row")
                records)
    | Raise e =>
        (Raise e, w,
         [EvFetch "campaign_level_reports.sync_extended_spend_row" h args])
    end.
Proof.
  intros args. subst args.
  rewrite campaign_branch, reports_branch, spend_row_branch.
  by rewrite !raw_loop_eq.
Qed.

(** X5: the two flattening streams stop at the first record that does not
    convert: the records before it have been written, converted, its
    exception is raised, and the records after it are not looked at. *)
Theorem flat_streams_stop_at_bad_record (state : State)
    (h : RequestHeadersValue) (additional : Additional) (w : World)
    (good good' : list Record_) (bad : Record_) (rest : list Record_) (e : Exn) :
  (campaign_sync h = Ok (good ++ bad :: rest) ->
   Forall2 (fun r r' => campaign_to_schema r = Ok r') good good' ->
   campaign_to_schema bad = Raise e ->
   sync_concrete_stream state "campaign_flat" h additional w
   = (Raise e, w,
      EvFetch "campaign.sync" h [] :: map (EvWriteRecord "campaign_flat") good')) /\
  (campaign_level_reports_sync_extended_spend_row h (a_start_time additional)
     (a_end_time additional) (a_selector additional) = Ok (good ++ bad :: rest) ->
   Forall2 (fun r r' => campaign_level_reports_flatten r = Ok r') good good' ->
   campaign_level_reports_flatten bad = Raise e ->
   sync_concrete_stream state "campaign_level_reports_extended_spend_row_flat"
     h additional w
   = (Raise e, w,
      EvFetch "campaign_level_reports.sync_extended_spend_row" h
        [a_start_time additional; a_end_time additional; a_selector additional]
        :: map (EvWriteRecord "campaign_level_reports_extended_spend_row_flat")
             good')).
Proof.
  split; intros Hfetch Hgood Hbad.
  - rewrite campaign_flat_branch.
    rewrite Hfetch, (bind_ok_eq _ _ _ _ _ _ (fetch_eq _ h _ (Ok _) w)).
    by rewrite (bind_raise_eq _ _ _ _ _ _
                  (proj2 (for_each_convert _ _ good good' w Hgood) bad rest e Hbad)).
  - rewrite spend_row_flat_branch.
    rewrite Hfetch, (bind_ok_eq _ _ _ _ _ _ (fetch_eq _ h _ (Ok _) w)).
    by rewrite (bind_raise_eq _ _ _ _ _ _
                  (proj2 (for_each_convert _ _ good good' w Hgood) bad rest e Hbad)).
Qed.

(** X6: when every record converts, a flattening stream writes the
    converted records, one per fetched record and in order, and returns the
    state as given. *)
Theorem flat_streams_write_converted_records (state : State)
    (h : RequestHeadersValue) (additional : Additional) (w : World)
    (records records' : list Record_) :
  (campaign_sync h = Ok records ->
   Forall2 (fun r r' => campaign_to_schema r = Ok r') records records' ->
   sync_concrete_stream state "campaign_flat" h additional w
   = (Ok (state, additional), w,
      EvFetch "campaign.sync" h []
        :: map (EvWriteRecord "campaign_flat") records')) /\
  (campaign_level_reports_sync_extended_spend_row h (a_start_time additional)
     (a_end_time additional) (a_selector additional) = Ok records ->
   Forall2 (fun r r' => campaign_level_reports_flatten r = Ok r') records records' ->
   sync_concrete_stream state "campaign_level_reports_extended_spend_row_flat"
     h additional w
   = (Ok (state, additional), w,
      EvFetch "campaign_level_reports.sync_extended_spend_row" h
        [a_start_time additional; a_end_time additional; a_selector additional]
        :: map (EvWriteRecord "campaign_level_reports_extended_spend_row_flat")
             records')).
Proof.
  split; intros Hfetch Hgood.
  - rewrite campaign_flat_branch.
    rewrite Hfetch, (bind_ok_eq _ _ _ _ _ _ (fetch_eq _ h _ (Ok _) w)).
    rewrite (bind_ok_eq _ _ _ _ _ _
               (proj1 (for_each_convert _ _ records records' w Hgood))).
    simpl. by rewrite app_nil_r.
  - rewrite spend_row_flat_branch.
    rewrite Hfetch, (bind_ok_eq _ _ _ _ _ _ (fetch_eq _ h _ (Ok _) w)).
    rewrite (bind_ok_eq _ _ _ _ _ _
               (proj1 (for_each_convert _ _ records records' w Hgood))).
    simpl. by rewrite app_nil_r.
Qed.

(** ** [impression_share_reports] *)

Lemma impression_branch (state : State) (h : RequestHeadersValue)
    (additional : Additional) :
  sync_concrete_stream state impression_stream h additional
  = (let current_bookmark_value := get_bookmark state impression_stream "date" in
     additional1 <-
       (if bool_decide (current_bookmark_value = VNone) then ret additional
        else
          t <- lift (strptime_to_utc current_bookmark_value) ;;
          ret {| a_start_time := VTime (t + seconds_per_day);
                 a_end_time := a_end_time additional;
                 a_selector := a_selector additional |}) ;;
     additional2 <-
       (if bool_decide (a_end_time additional1 = VNone) then
          today <- read_clock ;;
          ret {| a_start_time := a_start_time additional1;
                 a_end_time := VTime (today - seconds_per_day);
                 a_selector := a_selector additional1 |}
        else ret additional1) ;;
     reports_records <-
       fetch impression_api h
         [a_start_time additional2; a_end_time additional2;
          VStr "custom_reports_selector"]
         (impression_share_reports_sync h (a_start_time additional2)
            (a_end_time additional2) (VStr "custom_reports_selector")) ;;
     for_each (fun record => write_record impression_stream record)
       reports_records ;;;
     max_report_date <- lift (max_date reports_records) ;;
     ret (write_bookmark
            (write_bookmark state impression_stream "date" max_report_date)
            impression_stream "latestRecordCount"
            (VInt (Z.of_nat (length reports_records))),
          additional2)).
Proof. reflexivity. Qed.

(** The branch in closed form, once the start of the window is known. *)
Lemma impression_eq (state : State) (h : RequestHeadersValue)
    (additional : Additional) (w : World) (start : Val) :
  window_start state additional start ->
  let today := w_clock w (w_reads w) in
  let defaulted := bool_decide (a_end_time additional = VNone) in
  let end_ := if defaulted then VTime (today - seconds_per_day)
              else a_end_time additional in
  let w1 := if defaulted then with_reads w (S (w_reads w)) else w in
  let pre := if defaulted then [EvClock today] else [] in
  let request := EvFetch impression_api h
                   [start; end_; VStr "custom_reports_selector"] in
  sync_concrete_stream state impression_stream h additional w
  = match impression_share_reports_sync h start end_
            (VStr "custom_reports_selector") with
    | Raise e => (Raise e, w1, pre ++ [request])
    | Ok records =>
        match max_date records with
        | Raise e =>
            (Raise e, w1,
             pre ++ request :: map (EvWriteRecord impression_stream) records)
        | Ok d =>
            (Ok (write_bookmark (write_bookmark state impression_stream "date" d)
                   impression_stream "latestRecordCount"
                   (VInt (Z.of_nat (length records))),
                 {| a_start_time := start; a_end_time := end_;
                    a_selector := a_selector additional |}),
             w1,
             pre ++ request :: map (EvWriteRecord impression_stream) records)
        end
    end.
Proof.
  intros Hstart. rewrite impression_branch. cbv zeta.
  destruct additional as [s0 e0 sel0]. cbn [a_start_time a_end_time a_selector].
  assert ((if bool_decide (get_bookmark state impression_stream "date" = VNone)
           then ret {| a_start_time := s0; a_end_time := e0; a_selector := sel0 |}
           else
             t <- lift (strptime_to_utc
                          (get_bookmark state impression_stream "date")) ;;
             ret {| a_start_time := VTime (t + seconds_per_day);
                    a_end_time := e0; a_selector := sel0 |}) w
          = (Ok {| a_start_time := start; a_end_time := e0; a_selector := sel0 |},
             w, [])) as Hfirst.
  { destruct Hstart as [[Hb ->]|[Hb (t & Ht & ->)]].
    - by rewrite bool_decide_eq_true_2.
    - rewrite bool_decide_eq_false_2 by done. unfold bind, lift. by rewrite Ht. }
  rewrite (bind_ok_eq _ _ _ _ _ _ Hfirst).
  cbn [a_start_time a_end_time a_selector].
  destruct (bool_decide (e0 = VNone)).
  - rewrite (bind_ok_eq _ _ w (with_reads w (S (w_reads w)))
               {| a_start_time := start;
                  a_end_time := VTime (w_clock w (w_reads w) - seconds_per_day);
                  a_selector := sel0 |} [EvClock (w_clock w (w_reads w))]);
      [|done].
    cbn [a_start_time a_end_time a_selector].
    destruct (impression_share_reports_sync h start _ _) as [records|e].
    + rewrite (bind_ok_eq _ _ _ _ _ _ (fetch_eq _ h _ (Ok records) _)).
      rewrite (bind_ok_eq _ _ _ _ _ _ (for_each_write _ records _)).
      unfold bind, lift, ret.
      destruct (max_date records) as [d|e]; simpl; by rewrite ?app_nil_r.
    + by rewrite (bind_raise_eq _ _ _ _ _ _ (fetch_eq _ h _ (Raise e) _)).
  - rewrite (bind_ok_eq _ _ w w
               {| a_start_time := start; a_end_time := e0; a_selector := sel0 |}
               []); [|done].
    cbn [a_start_time a_end_time a_selector].
    destruct (impression_share_reports_sync h start _ _) as [records|e].
    + rewrite (bind_ok_eq _ _ _ _ _ _ (fetch_eq _ h _ (Ok records) _)).
      rewrite (bind_ok_eq _ _ _ _ _ _ (for_each_write _ records _)).
      unfold bind, lift, ret.
      destruct (max_date records) as [d|e]; simpl; by rewrite ?app_nil_r.
    + by rewrite (bind_raise_eq _ _ _ _ _ _ (fetch_eq _ h _ (Raise e) _)).
Qed.

Lemma impression_window (state : State) (h : RequestHeadersValue)
    (additional : Additional) (w : World) (start : Val) :
  window_start state additional start ->
  let run := sync_concrete_stream state impression_stream h additional w in
  let today := w_clock w (w_reads w) in
  match a_end_time additional with
  | VNone =>
      (exists rest,
         trace_of run =
         EvClock today
           :: EvFetch impression_api h
                [start; VTime (today - seconds_per_day);
                 VStr "custom_reports_selector"] :: rest) /\
      w_reads (world_of run) = S (w_reads w) /\
      forall r, result_of run = Ok r ->
        r.2 = {| a_start_time := start;
                 a_end_time := VTime (today - seconds_per_day);
                 a_selector := a_selector additional |}
  | end_ =>
      (exists rest,
         trace_of run =
         EvFetch impression_api h [start; end_; VStr "custom_reports_selector"]
           :: rest) /\
      w_reads (world_of run) = w_reads w /\
      forall r, result_of run = Ok r ->
        r.2 = {| a_start_time := start; a_end_time := end_;
                 a_selector := a_selector additional |}
  end.
Proof.
  intros Hstart run today. subst run today.
  rewrite (impression_eq state h additional w start Hstart). cbv zeta.
  destruct (a_end_time additional) eqn:Hend;
    [ rewrite bool_decide_eq_true_2 by done
    | rewrite bool_decide_eq_false_2 by done ..];
    (destruct (impression_share_reports_sync h start _ _) as [records|e];
     [destruct (max_date records) as [d|e]|]);
    unfold trace_of, world_of, result_of; simpl;
    (split; [eauto|]); (split; [done|]); intros r; try discriminate;
    by intros [= <-].
Qed.

(** X7: the window [impression_share_reports] requests.  It starts at the
    configured start time when the state has no [date] bookmark and on the
    day after the bookmark when it has one, whatever the configuration says.
    A missing end time is replaced by yesterday, which costs one reading of
    the clock before the request; a configured end time is used as it is
    and the clock is left alone.  A sync that returns hands this window
    back in [additional]. *)
Theorem impression_request_window (state : State) (h : RequestHeadersValue)
    (additional : Additional) (w : World) (start : Val) :
  window_start state additional start ->
  let run := sync_concrete_stream state impression_stream h additional w in
  let today := w_clock w (w_reads w) in
  match a_end_time additional with
  | VNone =>
      (exists rest,
         trace_of run =
         EvClock today
           :: EvFetch impression_api h
                [start; VTime (today - seconds_per_day);
                 VStr "custom_reports_selector"] :: rest) /\
      w_reads (world_of run) = S (w_reads w) /\
      forall r, result_of run = Ok r ->
        r.2 = {| a_start_time := start;
                 a_end_time := VTime (today - seconds_per_day);
                 a_selector := a_selector additional |}
  | end_ =>
      (exists rest,
         trace_of run =
         EvFetch impression_api h [start; end_; VStr "custom_reports_selector"]
           :: rest) /\
      w_reads (world_of run) = w_reads w /\
      forall r, result_of run = Ok r ->
        r.2 = {| a_start_time := start; a_end_time := end_;
                 a_selector := a_selector additional |}
  end.
Proof. apply impression_window. Qed.

Lemma impression_bad_bookmark (state : State) (h : RequestHeadersValue)
    (additional : Additional) (w : World) (e : Exn) :
  get_bookmark state impression_stream "date" <> VNone ->
  strptime_to_utc (get_bookmark state impression_stream "date") = Raise e ->
  sync_concrete_stream state impression_stream h additional w = (Raise e, w, []).
Proof.
  intros Hb He. rewrite impression_branch. cbv zeta.
  apply bind_raise_eq. rewrite bool_decide_eq_false_2 by done.
  unfold bind, lift. by rewrite He.
Qed.

(** X8: a [date] bookmark that does not parse as a datetime fails the sync
    before anything is requested or written. *)
Theorem impression_unparsable_bookmark (state : State) (h : RequestHeadersValue)
    (additional : Additional) (w : World) (e : Exn) :
  get_bookmark state impression_stream "date" <> VNone ->
  strptime_to_utc (get_bookmark state impression_stream "date") = Raise e ->
  sync_concrete_stream state impression_stream h additional w = (Raise e, w, []).
Proof. apply impression_bad_bookmark. Qed.

(** X9: when the endpoint has nothing to report for the window, the sync
    fails: [max] of the empty sequence raises [ValueError] after the
    request, nothing is written and no bookmark is set. *)
Theorem impression_empty_report_fails (state : State) (h : RequestHeadersValue)
    (additional : Additional) (w : World) (start : Val) :
  window_start state additional start ->
  let today := w_clock w (w_reads w) in
  let end_ := if bool_decide (a_end_time additional = VNone)
              then VTime (today - seconds_per_day)
              else a_end_time additional in
  impression_share_reports_sync h start end_ (VStr "custom_reports_selector")
  = Ok [] ->
  result_of (sync_concrete_stream state impression_stream h additional w)
  = Raise (ValueError "max() arg is an empty sequence") /\
  Forall (fun e => match e with EvWriteRecord _ _ => False | _ => True end)
    (trace_of (sync_concrete_stream state impression_stream h additional w)).
Proof.
  intros Hstart today end_ Hempty. subst today end_.
  rewrite (impression_eq state h additional w start Hstart). cbv zeta.
  rewrite Hempty. unfold result_of, trace_of. simpl. split; [done|].
  destruct (bool_decide _); repeat constructor.
Qed.

Lemma get_write_bookmark (state : State) (stream key : string) (v : Val) :
  get_bookmark (write_bookmark state stream key v) stream key = v.
Proof.
  unfold get_bookmark, write_bookmark.
  by rewrite lookup_insert_eq, lookup_insert_eq.
Qed.

Lemma get_write_bookmark_other_key (state : State) (stream key key' : string)
    (v : Val) :
  key <> key' ->
  get_bookmark (write_bookmark state stream key v) stream key'
  = get_bookmark state stream key'.
Proof.
  intros Hne. unfold get_bookmark, write_bookmark.
  rewrite lookup_insert_eq, lookup_insert_ne by done.
  by destruct (state !! stream).
Qed.

Lemma write_bookmark_other_stream (state : State) (stream other key : string)
    (v : Val) :
  other <> stream -> write_bookmark state stream key v !! other = state !! other.
Proof. intros Hne. unfold write_bookmark. by rewrite lookup_insert_ne. Qed.

Lemma max_date_from_in (cur : Val) (records : list Record_) (d : Val) :
  max_date_from cur records = Ok d ->
  d = cur \/ exists record, In record records /\ record !! "date" = Some d.
Proof.
  revert cur. induction records as [|r rest IH]; intros cur; simpl.
  - intros [= <-]. by left.
  - destruct (r !! "date") as [x|] eqn:Hx; [|done].
    destruct (val_gt x cur) as [[]|]; [| |done]; intros Hm;
      apply IH in Hm as [->|(record & Hin & Hd)]; eauto.
Qed.

Lemma max_date_in (records : list Record_) (d : Val) :
  max_date records = Ok d ->
  exists record, In record records /\ record !! "date" = Some d.
Proof.
  destruct records as [|r rest]; simpl; [done|].
  destruct (r !! "date") as [x|] eqn:Hx; [|done].
  intros Hm. apply max_date_from_in in Hm as [->|(record & Hin & Hd)]; eauto.
Qed.

Lemma impression_ok_window (state : State) (h : RequestHeadersValue)
    (additional : Additional) (w : World) (r : State * Additional) :
  result_of (sync_concrete_stream state impression_stream h additional w) = Ok r ->
  exists start, window_start state additional start.
Proof.
  intros Hr. unfold window_start. cbv zeta.
  destruct (decide (get_bookmark state impression_stream "date" = VNone))
    as [Hb|Hb]; [eauto|].
  destruct (strptime_to_utc (get_bookmark state impression_stream "date"))
    as [t|e] eqn:Ht; [eauto 6|].
  by rewrite (impression_bad_bookmark state h additional w e Hb Ht) in Hr.
Qed.

(** X10: a sync of [impression_share_reports] that returns has fetched at
    least one record.  The state it returns holds, for this stream, the
    [date] bookmark, which is the [date] of one of the fetched records, and
    [latestRecordCount], the number of fetched records; the stream's other
    bookmarks and the other streams' entries are as they were. *)
Theorem impression_sync_bookmarks (state : State) (h : RequestHeadersValue)
    (additional : Additional) (w : World) (r : State * Additional) :
  result_of (sync_concrete_stream state impression_stream h additional w) = Ok r ->
  exists records d,
    impression_share_reports_sync h (a_start_time r.2) (a_end_time r.2)
      (VStr "custom_reports_selector") = Ok records /\
    records <> [] /\
    (exists record, In record records /\ record !! "date" = Some d) /\
    get_bookmark r.1 impression_stream "date" = d /\
    get_bookmark r.1 impression_stream "latestRecordCount"
    = VInt (Z.of_nat (length records)) /\
    (forall key, key <> "date" -> key <> "latestRecordCount" ->
       get_bookmark r.1 impression_stream key
       = get_bookmark state impression_stream key) /\
    (forall other, other <> impression_stream -> r.1 !! other = state !! other).
Proof.
  intros Hr. destruct (impression_ok_window _ _ _ _ _ Hr) as [start Hstart].
  rewrite (impression_eq state h additional w start Hstart) in Hr.
  cbv zeta in Hr.
  destruct (impression_share_reports_sync h start _ _) as [records|e] eqn:Hf;
    [|done].
  destruct (max_date records) as [d|e] eqn:Hm; [|done].
  unfold result_of in Hr. simpl in Hr. injection Hr as <-. simpl.
  exists records, d. split; [done|]. split.
  { intros ->. discriminate. }
  split; [by apply max_date_in|]. split.
  { rewrite get_write_bookmark_other_key by done. apply get_write_bookmark. }
  split; [apply get_write_bookmark|]. split.
  - intros key Hk1 Hk2. by rewrite !get_write_bookmark_other_key.
  - intros other Hne. by rewrite !write_bookmark_other_stream.
Qed.

(** X11: a second sync of [impression_share_reports], run on the state and
    the [additional] the first one returned, asks for the window that
    starts the day after the bookmark the first one set and keeps the end
    the first one used: it does not read the clock again. *)
Theorem next_impression_sync_starts_after_bookmark (state : State)
    (h : RequestHeadersValue) (additional : Additional) (w w' : World)
    (r : State * Additional) (t : Z) :
  result_of (sync_concrete_stream state impression_stream h additional w) = Ok r ->
  get_bookmark r.1 impression_stream "date" <> VNone ->
  strptime_to_utc (get_bookmark r.1 impression_stream "date") = Ok t ->
  a_end_time r.2 <> VNone /\
  (exists rest,
     trace_of (sync_concrete_stream r.1 impression_stream h r.2 w')
     = EvFetch impression_api h
         [VTime (t + seconds_per_day); a_end_time r.2;
          VStr "custom_reports_selector"] :: rest) /\
  w_reads (world_of (sync_concrete_stream r.1 impression_stream h r.2 w'))
  = w_reads w'.
Proof.
  intros Hr Hb Ht.
  assert (a_end_time r.2 <> VNone) as Hend.
  { destruct (impression_ok_window _ _ _ _ _ Hr) as [start Hstart].
    pose proof (impression_window state h additional w start Hstart)
      as Hwin. cbv zeta in Hwin.
    destruct (a_end_time additional) eqn:He;
      destruct Hwin as (_ & _ & Hadd); rewrite (Hadd r Hr); done. }
  split; [done|].
  assert (window_start r.1 r.2 (VTime (t + seconds_per_day))) as Hstart'.
  { right. split; [done|]. eauto. }
  pose proof (impression_window r.1 h r.2 w' _ Hstart') as Hwin.
  cbv zeta in Hwin.
  destruct (a_end_time r.2) eqn:He; [done| | |];
    destruct Hwin as (Htr & Hreads & _); done.
Qed.

Lemma sync_stream_ok_eq (name : string) (s : CatalogEntry) (state : State)
    (h : RequestHeadersValue) (additional : Additional) (w w1 : World)
    (r : State * Additional) (t : list Event) :
  selected s = true ->
  sync_concrete_stream state name h additional w = (Ok r, w1, t) ->
  sync_stream name s state h additional w
  = (Ok r, w1, EvWriteSchema name (key_properties s) :: t ++ [EvWriteState r.1]).
Proof.
  intros Hs Hc. unfold sync_stream. rewrite Hs. simpl.
  unfold bind, emit, ret. by rewrite Hc.
Qed.

(** X12: the window [impression_share_reports] settles is what the streams
    after it in the same run are requested with: [campaign_level_reports],
    synced next, asks for the start and the end that [impression_share_reports]
    left in [additional], so with no end time configured it asks for data up
    to yesterday, and with a bookmark it starts the day after the bookmark. *)
Theorem later_streams_use_the_impression_window (s1 s2 : CatalogEntry)
    (rest : list CatalogEntry) (state : State) (h : RequestHeadersValue)
    (additional : Additional) (w w1 : World) (r : State * Additional)
    (t : list Event) :
  selected s1 = true ->
  tap_stream_id s1 = impression_stream ->
  selected s2 = true ->
  tap_stream_id s2 = "campaign_level_reports" ->
  sync_concrete_stream state impression_stream h additional w = (Ok r, w1, t) ->
  (a_end_time additional = VNone ->
   a_end_time r.2 = VTime (w_clock w (w_reads w) - seconds_per_day)) /\
  exists rest',
    trace_of (sync_streams (s1 :: s2 :: rest) state h additional w)
    = (EvWriteSchema impression_stream (key_properties s1)
         :: t ++ [EvWriteState r.1])
      ++ EvWriteSchema "campaign_level_reports" (key_properties s2)
      :: EvFetch "campaign_level_reports.sync" h
           [a_start_time r.2; a_end_time r.2; a_selector additional]
      :: rest'.
Proof.
  intros Hs1 Hn1 Hs2 Hn2 Hrun.
  assert (result_of (sync_concrete_stream state impression_stream h additional w)
          = Ok r) as Hr by (by rewrite Hrun).
  destruct (impression_ok_window _ _ _ _ _ Hr) as [start Hstart].
  pose proof (impression_window state h additional w start Hstart) as Hwin.
  cbv zeta in Hwin.
  assert (a_selector r.2 = a_selector additional) as Hsel.
  { destruct (a_end_time additional); destruct Hwin as (_ & _ & Hadd);
      by rewrite (Hadd r Hr). }
  split.
  { intros He. rewrite He in Hwin. destruct Hwin as (_ & _ & Hadd).
    by rewrite (Hadd r Hr). }
  cbn [sync_streams]. rewrite Hn1, Hn2.
  rewrite (bind_ok_eq _ _ _ _ _ _
             (sync_stream_ok_eq _ s1 _ _ _ _ _ _ _ Hs1 Hrun)).
  unfold sync_stream at 1. rewrite Hs2. cbn [negb].
  rewrite reports_branch. unfold bind at 1 2 3. unfold emit.
  rewrite raw_loop_eq, Hsel.
  destruct (campaign_level_reports_sync h _ _ _) as [records|e].
  - unfold bind, emit, ret. simpl.
    destruct (sync_streams rest _ h _ w1) as [[r3 w3] t3]. simpl.
    unfold trace_of. simpl. eauto.
  - unfold trace_of. simpl. eauto.
Qed.

(** ** The cache handle *)




(** ** What a run leaves alone *)

Lemma keeps_ret {A X} (f : World -> X) (a : A) : keeps f (ret a).
Proof. by intros w. Qed.

Lemma keeps_raise {A X} (f : World -> X) (e : Exn) : keeps f (@raise A e).
Proof. by intros w. Qed.

Lemma keeps_lift {A X} (f : World -> X) (r : Result A) : keeps f (lift r).
Proof. by intros w. Qed.

Lemma keeps_emit {X} (f : World -> X) (e : Event) : keeps f (emit e).
Proof. by intros w. Qed.

Lemma keeps_bind {A B X} (f : World -> X) (m : M A) (k : A -> M B) :
  keeps f m -> (forall a, keeps f (k a)) -> keeps f (bind m k).
Proof.
  intros Hm Hk w. specialize (Hm w). unfold bind, world_of in *.
  destruct (m w) as [[[a|e] w1] t1]; simpl in *; [|done].
  specialize (Hk a w1). unfold world_of in Hk.
  destruct (k a w1) as [[r w2] t2]; simpl in *. congruence.
Qed.

Lemma keeps_for_each {A X} (f : World -> X) (body : A -> M unit) (xs : list A) :
  (forall x, keeps f (body x)) -> keeps f (for_each body xs).
Proof.
  intros Hb. induction xs as [|x xs IH]; simpl; [apply keeps_ret|].
  apply keeps_bind; [apply Hb|]. intros _. apply IH.
Qed.

Lemma keeps_fetch {X} (f : World -> X) (api : string) (h : RequestHeadersValue)
    (args : list Val) (reply : Result (list Record_)) :
  keeps f (fetch api h args reply).
Proof. intros w. by rewrite fetch_eq. Qed.

Lemma keeps_bind_lift {A B X} (f : World -> X) (r : Result A) (k : A -> M B) :
  (forall a, r = Ok a -> keeps f (k a)) -> keeps f (bind (lift r) k).
Proof.
  intros Hk w. unfold bind, lift, world_of. destruct r as [a|e]; [|done].
  specialize (Hk a eq_refl w). unfold world_of in Hk.
  by destruct (k a w) as [[r w2] t2].
Qed.

Lemma keeps_bind_ret {A B X} (f : World -> X) (a : A) (k : A -> M B) :
  keeps f (k a) -> keeps f (bind (ret a) k).
Proof.
  intros Hk w. specialize (Hk w). unfold bind, ret, world_of in *.
  by destruct (k a w) as [[r w2] t2].
Qed.

Lemma emits_bind_lift {A B} (P : Event -> Prop) (r : Result A) (k : A -> M B) :
  (forall a, r = Ok a -> emits P (k a)) -> emits P (bind (lift r) k).
Proof.
  intros Hk w. unfold bind, lift, trace_of. destruct r as [a|e]; [|constructor].
  specialize (Hk a eq_refl w). unfold trace_of in Hk.
  by destruct (k a w) as [[r w2] t2].
Qed.

Lemma emits_bind_ret {A B} (P : Event -> Prop) (a : A) (k : A -> M B) :
  emits P (k a) -> emits P (bind (ret a) k).
Proof.
  intros Hk w. specialize (Hk w). unfold bind, ret, trace_of in *.
  by destruct (k a w) as [[r w2] t2].
Qed.

Ltac keeps_step :=
  first
    [ apply keeps_ret
    | apply keeps_raise
    | apply keeps_lift
    | apply keeps_fetch
    | apply keeps_emit
    | apply keeps_for_each; intros ?
    | apply keeps_bind; [|intros ?]
    | match goal with
      | |- keeps _ (if ?b then _ else _) => destruct b
      end ].

Lemma sync_streams_keeps_footprint (streams : list CatalogEntry) (state : State)
    (h : RequestHeadersValue) (additional : Additional) :
  keeps cache_footprint (sync_streams streams state h additional).
Proof.
  assert (keeps cache_footprint read_clock) as Hclock by (by intros w).
  revert state additional.
  induction streams as [|s rest IH]; intros state additional; simpl.
  { apply keeps_ret. }
  apply keeps_bind; [|intros r; apply IH].
  unfold sync_stream. destruct (negb (selected s)); [apply keeps_ret|].
  apply keeps_bind; [apply keeps_emit|]. intros _.
  apply keeps_bind; cycle 1.
  { intros r. apply keeps_bind; [apply keeps_emit|]. intros _. apply keeps_ret. }
  unfold sync_concrete_stream, write_record.
  repeat first [ apply Hclock | keeps_step ].
Qed.

Lemma load_private_key_world (config : gmap string string) (w : World) :
  world_of (load_private_key config w) = w /\
  Forall (fun e => cache_event e = false) (trace_of (load_private_key config w)).
Proof.
  unfold load_private_key.
  destruct (config !! "private_key_value"); [by split; [|constructor]|].
  destruct (config !! "private_key_file") as [f|]; [|by split; [|constructor]].
  unfold read_private_key_from_file, bind, emit, world_of, trace_of.
  destruct (w_files w !! f); simpl; (split; [done|repeat constructor]).
Qed.

Lemma pipeline_direct_footprint (now : Z) (cs : ClientSecret) (tok : AccessToken)
    (rh : RequestHeaders) (pk : string) (w : World) :
  cache_footprint (world_of (pipeline_value now (Direct cs, Direct tok, Direct rh)
                               pk w))
  = cache_footprint w.
Proof.
  rewrite pipeline_value_eq, cs_direct_eq.
  destruct (signing cs pk) as [token|e]; [|done].
  rewrite at_direct_eq.
  destruct (token_of_reply now (next_reply w)) as [t|e];
    [rewrite rh_direct_eq|]; unfold world_of, after_post; simpl;
    by destruct (w_net w).
Qed.

Lemma pipeline_events_no_cache (tr : list Event) :
  pipeline_events tr -> Forall (fun e => cache_event e = false) tr.
Proof.
  intros (a & b & c & -> & Ha & Hb & Hc).
  destruct Ha as [->| ->], Hb as [->| ->], Hc as [->| ->]; simpl;
    repeat constructor.
Qed.

Lemma stream_phase_no_cache (h : RequestHeadersValue) (tr : list Event) :
  Forall (fun e => stream_phase_event h e = true) tr ->
  Forall (fun e => cache_event e = false) tr.
Proof.
  induction 1 as [|e tr He _ IH]; constructor; [|done]. by destruct e.
Qed.

(** X14: with local caching disabled a run never goes near the cache: it
    does not look for the directory, opens no shelf, and leaves the shelf
    files, the paths and the module-level handle exactly as they were,
    whether it returns or raises. *)
Theorem no_caching_leaves_the_cache_alone (config : gmap string string)
    (cfg : Authentication) (catalog : list CatalogEntry) (state : State)
    (w : World) :
  from_mapping config = Ok cfg ->
  local_caching cfg = false ->
  cache_footprint (world_of (do_sync config catalog state w)) = cache_footprint w /\
  Forall (fun e => cache_event e = false)
    (trace_of (do_sync config catalog state w)).
Proof.
  intros Hcfg Hlc. split.
  - revert w.
    change (keeps cache_footprint (do_sync config catalog state)).
    unfold do_sync.
    apply keeps_bind; [by intros w|]. intros timestamp.
    apply keeps_bind_lift. intros a Ha. rewrite Hcfg in Ha.
    injection Ha as <-. rewrite Hlc. apply keeps_bind_ret.
    apply keeps_bind.
    { intros w. by rewrite (proj1 (load_private_key_world config w)). }
    intros pk.
    apply keeps_bind; [intros w; apply pipeline_direct_footprint|]. intros h.
    apply keeps_bind; [apply sync_streams_keeps_footprint|]. intros _.
    apply keeps_ret.
  - revert w.
    change (emits (fun e => cache_event e = false) (do_sync config catalog state)).
    unfold do_sync.
    apply emits_bind; [intros w; by repeat constructor|]. intros timestamp.
    apply emits_bind_lift. intros a Ha. rewrite Hcfg in Ha.
    injection Ha as <-. rewrite Hlc. apply emits_bind_ret.
    apply emits_bind; [intros w; apply (load_private_key_world config w)|].
    intros pk.
    apply emits_bind.
    { intros w. apply pipeline_events_no_cache, pipeline_value_events. }
    intros h. apply emits_bind; [|intros _; apply emits_ret].
    intros w. eapply stream_phase_no_cache, sync_streams_emits.
Qed.


(** ** Discovery *)

Section DiscoveryProperties.

Variable load_schema : string -> Result Record_.

Lemma discover_streams_spec (streams : list string) :
  match discover_streams load_schema streams with
  | Ok entries =>
      map ds_tap_stream_id entries = streams /\
      map ds_stream entries = streams /\
      Forall (fun d => load_schema (ds_stream d) = Ok (ds_schema d) /\
                       metadata_selected (ds_metadata d) = false) entries
  | Raise e => exists name, name ∈ streams /\ load_schema name = Raise e
  end.
Proof.
  induction streams as [|name rest IH]; simpl; [done|].
  destruct (load_schema name) as [schema|e] eqn:Hl.
  - destruct (discover_streams load_schema rest) as [entries|e].
    + destruct IH as (H1 & H2 & H3). simpl. rewrite H1, H2.
      split; [done|]. split; [done|]. by constructor.
    + destruct IH as (bad & Hin & Hbad). exists bad.
      split; [by apply list_elem_of_further|done].
  - exists name. split; [apply list_elem_of_here|done].
Qed.

(** X16: discovery either prints all six streams of [STREAMS], in that
    order, each under its own name as stream and as id, with the schema
    that was loaded for it and not selected, and returns 0; or the schema
    of some stream fails to load, that exception is raised, and nothing is
    printed at all. *)
Theorem discovery_lists_every_stream_unselected :
  match do_discover load_schema with
  | (Ok z, Some entries) =>
      z = 0 /\
      map ds_tap_stream_id entries = STREAMS /\
      map ds_stream entries = STREAMS /\
      Forall (fun d => load_schema (ds_stream d) = Ok (ds_schema d) /\
                       metadata_selected (ds_metadata d) = false) entries
  | (Raise e, None) => exists name, name ∈ STREAMS /\ load_schema name = Raise e
  | _ => False
  end.
Proof.
  unfold do_discover. pose proof (discover_streams_spec STREAMS) as Hspec.
  by destruct (discover_streams load_schema STREAMS).
Qed.

Lemma nothing_selected (entries : list DiscoveredStream) :
  Forall (fun d => metadata_selected (ds_metadata d) = false) entries ->
  selected_names (map catalog_entry_of entries) = [].
Proof.
  induction 1 as [|d entries Hd _ IH]; [done|]. simpl. by rewrite Hd.
Qed.

(** X17: a run on the catalog that discovery printed, handed back
    unedited, authenticates and then syncs nothing: it ends with what the
    authentication leaves, having written no schema, record or state and
    made no request. *)
Theorem discovered_catalog_syncs_nothing (entries : list DiscoveredStream)
    (config : gmap string string) (state : State) (w : World) :
  do_discover load_schema = (Ok 0, Some entries) ->
  do_sync config (map catalog_entry_of entries) state w
  = match authenticate config w with
    | (Ok _, w1, t1) => (Ok 0, w1, t1)
    | (Raise e, w1, t1) => (Raise e, w1, t1)
    end.
Proof.
  intros Hd. pose proof (discover_streams_spec STREAMS) as Hspec.
  unfold do_discover in Hd.
  destruct (discover_streams load_schema STREAMS) as [found|e]; [|done].
  injection Hd as ->. destruct Hspec as (_ & _ & Hsel).
  assert (selected_names (map catalog_entry_of entries) = []) as Hnone.
  { apply nothing_selected. eapply Forall_impl; [exact Hsel|]. by intros d [_ ?]. }
  rewrite do_sync_split.
  destruct (authenticate config w) as [[[[cfg h]|e] w1] t1]; [|done].
  rewrite sync_streams_nothing_selected by done. by rewrite app_nil_r.
Qed.

End DiscoveryProperties.

End Streams.

(** * More of the code, on concrete runs *)

(** Equality of two closed terms, by evaluation. *)
Ltac vm_refl :=
  match goal with
  | |- _ = ?y => vm_cast_no_check (@eq_refl _ y)
  end.

Lemma selected_unknown_stream_stops_the_loop_witness :
  sync_streams (env := demo) [unknown_entry; campaign_entry] ∅ demo_headers
    demo_additional fresh_world
  = (Raise (TapAppleSearchAdsException "Unknown stream: [keywords]"),
     fresh_world, [EvWriteSchema "keywords" ["id"]]).
Proof.
  assert (tap_stream_id unknown_entry ∉ STREAMS) as Hunknown
    by (apply (proj1 (bool_decide_eq_false _)); vm_compute; reflexivity).
  exact (selected_unknown_stream_stops_the_loop (env := demo) unknown_entry
           [campaign_entry] ∅ demo_headers demo_additional fresh_world
           eq_refl Hunknown).
Defined.

Lemma final_state_is_written_last_witness :
  last_state
    (trace_of (sync_streams (env := dated) [skipped_entry; impression_entry] ∅
                 demo_headers demo_additional fresh_world))
  = Some dated_result.1.
Proof.
  assert (result_of (sync_streams (env := dated) [skipped_entry; impression_entry]
                       ∅ demo_headers demo_additional fresh_world)
          = Ok dated_result) as Hrun by vm_refl.
  pose proof (final_state_is_written_last (env := dated)
                [skipped_entry; impression_entry] ∅ demo_headers demo_additional
                fresh_world dated_result Hrun) as Hthm.
  exact Hthm.
Defined.

Lemma flat_streams_stop_at_bad_record_witness :
  sync_concrete_stream (env := sparse) ∅ "campaign_flat" demo_headers
    demo_additional fresh_world
  = (Raise (KeyError "id"), fresh_world,
     [EvFetch "campaign.sync" demo_headers [];
      EvWriteRecord "campaign_flat" record_1]).
Proof.
  assert (Forall2 (fun r r' => campaign_to_schema (Collaborators := sparse) r = Ok r')
            [record_1] [record_1]) as Hgood.
  { constructor; [|constructor]. vm_compute. reflexivity. }
  assert (campaign_to_schema (Collaborators := sparse) record_no_id
          = Raise (KeyError "id")) as Hbad by (vm_compute; reflexivity).
  exact (proj1 (flat_streams_stop_at_bad_record (env := sparse) ∅ demo_headers
                  demo_additional fresh_world [record_1] [record_1]
                  record_no_id [record_3] (KeyError "id"))
           eq_refl Hgood Hbad).
Defined.

Lemma flat_streams_write_converted_records_witness :
  sync_concrete_stream (env := demo) ∅ "campaign_flat" demo_headers
    demo_additional fresh_world
  = (Ok (∅, demo_additional), fresh_world,
     [EvFetch "campaign.sync" demo_headers [];
      EvWriteRecord "campaign_flat" record_1]).
Proof.
  assert (Forall2 (fun r r' => campaign_to_schema (Collaborators := demo) r = Ok r')
            [record_1] [record_1]) as Hgood by (repeat constructor).
  exact (proj1 (flat_streams_write_converted_records (env := demo) ∅
                  demo_headers demo_additional fresh_world [record_1] [record_1])
           eq_refl Hgood).
Defined.

Lemma impression_request_window_witness :
  (exists rest,
     trace_of (sync_concrete_stream (env := demo) bookmarked_state
                 impression_stream demo_headers demo_additional fresh_world)
     = EvClock 1000
         :: EvFetch impression_api demo_headers
              [VTime (86400 + seconds_per_day); VTime (1000 - seconds_per_day);
               VStr "custom_reports_selector"] :: rest) /\
  w_reads (world_of (sync_concrete_stream (env := demo) bookmarked_state
                       impression_stream demo_headers demo_additional
                       fresh_world)) = 1%nat.
Proof.
  assert (window_start (env := demo) bookmarked_state demo_additional
            (VTime (86400 + seconds_per_day))) as Hstart.
  { right. split; [by vm_compute|]. exists 86400. split; vm_compute; reflexivity. }
  pose proof (impression_request_window (env := demo) bookmarked_state
                demo_headers demo_additional fresh_world
                (VTime (86400 + seconds_per_day)) Hstart)
    as (Htrace & Hreads & _).
  exact (conj Htrace Hreads).
Defined.

Lemma impression_unparsable_bookmark_witness :
  sync_concrete_stream (env := demo) garbled_state impression_stream demo_headers
    demo_additional fresh_world
  = (Raise (ValueError "not a datetime"), fresh_world, []).
Proof.
  assert (get_bookmark garbled_state impression_stream "date" <> VNone) as Hb
    by (by vm_compute).
  assert (strptime_to_utc (Collaborators := demo)
            (get_bookmark garbled_state impression_stream "date")
          = Raise (ValueError "not a datetime")) as Hparse
    by (vm_compute; reflexivity).
  exact (impression_unparsable_bookmark (env := demo) garbled_state demo_headers
           demo_additional fresh_world (ValueError "not a datetime") Hb Hparse).
Defined.

Lemma impression_empty_report_fails_witness :
  result_of (sync_concrete_stream (env := sparse) ∅ impression_stream
               demo_headers demo_additional fresh_world)
  = Raise (ValueError "max() arg is an empty sequence").
Proof.
  assert (window_start (env := sparse) ∅ demo_additional (VTime 500)) as Hstart.
  { left. split; vm_compute; reflexivity. }
  exact (proj1 (impression_empty_report_fails (env := sparse) ∅ demo_headers
                  demo_additional fresh_world (VTime 500) Hstart eq_refl)).
Defined.

Lemma impression_sync_bookmarks_witness :
  exists records d,
    impression_share_reports_sync (Collaborators := dated) demo_headers
      (a_start_time dated_result.2) (a_end_time dated_result.2)
      (VStr "custom_reports_selector") = Ok records /\
    records <> [] /\
    (exists record, In record records /\ record !! "date" = Some d) /\
    get_bookmark dated_result.1 impression_stream "date" = d /\
    get_bookmark dated_result.1 impression_stream "latestRecordCount"
    = VInt (Z.of_nat (length records)) /\
    (forall key, key <> "date" -> key <> "latestRecordCount" ->
       get_bookmark dated_result.1 impression_stream key
       = get_bookmark (∅ : State) impression_stream key) /\
    (forall other, other <> impression_stream ->
       dated_result.1 !! other = (∅ : State) !! other).
Proof.
  assert (result_of (sync_concrete_stream (env := dated) ∅ impression_stream
                       demo_headers demo_additional fresh_world)
          = Ok dated_result) as Hrun by vm_refl.
  exact (impression_sync_bookmarks (env := dated) ∅ demo_headers demo_additional
           fresh_world dated_result Hrun).
Defined.

Lemma next_impression_sync_starts_after_bookmark_witness :
  a_end_time dated_result.2 <> VNone /\
  (exists rest,
     trace_of (sync_concrete_stream (env := dated) dated_result.1
                 impression_stream demo_headers dated_result.2 online_world)
     = EvFetch impression_api demo_headers
         [VTime (259200 + seconds_per_day); a_end_time dated_result.2;
          VStr "custom_reports_selector"] :: rest) /\
  w_reads (world_of (sync_concrete_stream (env := dated) dated_result.1
                       impression_stream demo_headers dated_result.2
                       online_world))
  = w_reads online_world.
Proof.
  assert (result_of (sync_concrete_stream (env := dated) ∅ impression_stream
                       demo_headers demo_additional fresh_world)
          = Ok dated_result) as Hrun by vm_refl.
  assert (get_bookmark dated_result.1 impression_stream "date" <> VNone) as Hb
    by (by vm_compute).
  assert (strptime_to_utc (Collaborators := dated)
            (get_bookmark dated_result.1 impression_stream "date") = Ok 259200)
    as Hparse by (vm_compute; reflexivity).
  exact (next_impression_sync_starts_after_bookmark (env := dated) ∅
           demo_headers demo_additional fresh_world online_world dated_result
           259200 Hrun Hb Hparse).
Defined.

Lemma later_streams_use_the_impression_window_witness :
  a_end_time dated_result.2 = VTime (1000 - seconds_per_day) /\
  exists rest',
    trace_of (sync_streams (env := dated) [impression_entry; reports_entry] ∅
                demo_headers demo_additional fresh_world)
    = (EvWriteSchema impression_stream (key_properties impression_entry)
         :: dated_trace ++ [EvWriteState dated_result.1])
      ++ EvWriteSchema "campaign_level_reports" (key_properties reports_entry)
      :: EvFetch "campaign_level_reports.sync" demo_headers
           [a_start_time dated_result.2; a_end_time dated_result.2;
            a_selector demo_additional]
      :: rest'.
Proof.
  assert (sync_concrete_stream (env := dated) ∅ impression_stream demo_headers
            demo_additional fresh_world
          = (Ok dated_result, with_reads fresh_world 1, dated_trace)) as Hrun
    by vm_refl.
  pose proof (later_streams_use_the_impression_window (env := dated)
                impression_entry reports_entry [] ∅ demo_headers demo_additional
                fresh_world (with_reads fresh_world 1) dated_result dated_trace
                eq_refl eq_refl eq_refl eq_refl Hrun)
    as [Hend Htrace].
  exact (conj (Hend eq_refl) Htrace).
Defined.


Lemma no_caching_leaves_the_cache_alone_witness :
  cache_footprint
    (world_of (do_sync (env := demo) plain_config [campaign_entry] ∅ online_world))
  = cache_footprint online_world /\
  Forall (fun e => cache_event e = false)
    (trace_of (do_sync (env := demo) plain_config [campaign_entry] ∅ online_world)).
Proof.
  assert (from_mapping (Collaborators := demo) plain_config = Ok plain_config_)
    as Hcfg by (vm_compute; reflexivity).
  exact (no_caching_leaves_the_cache_alone (env := demo) plain_config
           plain_config_ [campaign_entry] ∅ online_world Hcfg eq_refl).
Defined.


Lemma discovered_catalog_syncs_nothing_witness :
  do_sync (env := demo) plain_config (map catalog_entry_of demo_discovered) ∅
    online_world
  = match authenticate (env := demo) plain_config online_world with
    | (Ok _, w1, t1) => (Ok 0, w1, t1)
    | (Raise e, w1, t1) => (Raise e, w1, t1)
    end.
Proof.
  assert (do_discover demo_load_schema = (Ok 0, Some demo_discovered)) as Hfound
    by (vm_compute; reflexivity).
  exact (discovered_catalog_syncs_nothing (env := demo) demo_load_schema
           demo_discovered plain_config ∅ online_world Hfound).
Defined.
